(** * ZK-NON ledger: the two back ends of the repository, embedded and verified

    The repository holds two implementations of the same ledger service:

    - [src/server.js] with [src/db.js]: the PostgreSQL back end.  Every
      handler runs inside one SQL transaction (BEGIN .. COMMIT) and reads
      its row [FOR UPDATE]; a withdrawal is purely synchronous.  It is
      embedded in module [Pg].
    - the second server file (better-sqlite3 and @solana/web3.js): the
      SQLite back end.  A withdrawal reserves the funds, answers PENDING
      and settles in a detached asynchronous job.  It is embedded in
      module [Sqlite].

    Handlers are state transformers [db -> response * db].  What the
    code draws from outside (request bodies, [crypto.randomBytes], the
    clock, the outcome of [sendFromPool]) is an argument of the handler
    or of the event that runs it. *)

From Stdlib Require Import ZArith NArith List Ascii String Floats Lia Bool.
From stdpp Require Import gmap strings list fin_maps sorting.

Set Warnings "-inexact-float".
Set Default Proof Using "Type".

Open Scope string_scope.

(** ** SHA-256 and hexadecimal strings ([crypto.createHash("sha256")],
    [Buffer.toString("hex")]) *)

Module Sha256.
Local Open Scope N_scope.

Definition mask32 : N := 0xFFFFFFFF.
Definition add32 (x y : N) : N := N.land (x + y) mask32.
Definition not32 (x : N) : N := N.lxor x mask32.
Definition rotr (n x : N) : N :=
  N.lor (N.shiftr x n) (N.land (N.shiftl x (32 - n)) mask32).
Definition shr (n x : N) : N := N.shiftr x n.

Definition Ch (x y z : N) : N := N.lxor (N.land x y) (N.land (not32 x) z).
Definition Maj (x y z : N) : N :=
  N.lxor (N.lxor (N.land x y) (N.land x z)) (N.land y z).
Definition bsig0 (x : N) : N := N.lxor (N.lxor (rotr 2 x) (rotr 13 x)) (rotr 22 x).
Definition bsig1 (x : N) : N := N.lxor (N.lxor (rotr 6 x) (rotr 11 x)) (rotr 25 x).
Definition ssig0 (x : N) : N := N.lxor (N.lxor (rotr 7 x) (rotr 18 x)) (shr 3 x).
Definition ssig1 (x : N) : N := N.lxor (N.lxor (rotr 17 x) (rotr 19 x)) (shr 10 x).

(** The constants of FIPS 180-4: the first 32 bits of the fractional parts
    of the cube roots of the first 64 primes, and of the square roots of
    the first 8 primes. *)
Definition is_prime (n : N) : bool :=
  (1 <? n) && forallb (fun d => negb (n mod d =? 0))
                (map N.of_nat (seq 2 (N.to_nat n - 2))).

Definition primes (count : nat) : list N :=
  firstn count (List.filter is_prime (map N.of_nat (seq 2 400))).

(** The largest [r] with [r^3 <= n], one bit at a time from bit [bits]. *)
Fixpoint cube_root (bits : nat) (n r : N) : N :=
  match bits with
  | O => r
  | S b =>
      let r' := N.lor r (N.shiftl 1 (N.of_nat b)) in
      cube_root b n (if r' * r' * r' <=? n then r' else r)
  end.

Definition K : list N :=
  Eval vm_compute in
    map (fun p => N.land (cube_root 48 (N.shiftl p 96) 0) mask32) (primes 64).

Definition H0 : list N :=
  Eval vm_compute in
    map (fun p => N.land (N.sqrt (N.shiftl p 64)) mask32) (primes 8).

(** Big-endian bytes of a number, [n] of them. *)
Fixpoint be_bytes (n : nat) (x : N) : list N :=
  match n with
  | O => []
  | S n' => be_bytes n' (N.shiftr x 8) ++ [N.land x 0xFF]
  end.

Definition be_word (bs : list N) : N :=
  fold_left (fun acc b => N.lor (N.shiftl acc 8) b) bs 0.

(** The message followed by 0x80, zero bytes up to 56 modulo 64, and
    the bit length on 8 bytes. *)
Definition pad (msg : list N) : list N :=
  let len := N.of_nat (length msg) in
  let zeros := N.to_nat ((64 - ((len + 9) mod 64)) mod 64) in
  msg ++ [0x80] ++ repeat 0 zeros ++ be_bytes 8 (8 * len).

Fixpoint chunks (fuel : nat) (n : nat) (l : list N) : list (list N) :=
  match fuel, l with
  | O, _ | _, [] => []
  | S fuel', _ => firstn n l :: chunks fuel' n (skipn n l)
  end.

(** The message schedule, newest word first: [ws] holds W[t-1], W[t-2], ... *)
Fixpoint schedule (n : nat) (ws : list N) : list N :=
  match n with
  | O => ws
  | S n' =>
      let w := add32 (add32 (ssig1 (nth 1 ws 0)) (nth 6 ws 0))
                     (add32 (ssig0 (nth 14 ws 0)) (nth 15 ws 0)) in
      schedule n' (w :: ws)
  end.

Definition round (st : list N) (kw : N * N) : list N :=
  match st with
  | [a; b; c; d; e; f; g; h] =>
      let t1 := add32 (add32 (add32 h (bsig1 e)) (add32 (Ch e f g) (fst kw))) (snd kw) in
      let t2 := add32 (bsig0 a) (Maj a b c) in
      [add32 t1 t2; a; b; c; add32 d t1; e; f; g]
  | _ => st
  end.

Definition compress (h : list N) (block : list N) : list N :=
  let w16 := map be_word (chunks 16 4 block) in
  let w := rev (schedule 48 (rev w16)) in
  let st := fold_left round (combine K w) h in
  map (fun p => add32 (fst p) (snd p)) (combine h st).

Definition digest (msg : list N) : list N :=
  let p := pad msg in
  let blocks := chunks (length p) 64 p in
  flat_map (be_bytes 4) (fold_left compress blocks H0).
End Sha256.

Module Hex.
Local Open Scope N_scope.

Definition digit (upper : bool) (d : N) : ascii :=
  if d <? 10 then ascii_of_N (48 + d)
  else ascii_of_N ((if upper then 55 else 87) + d).

Definition of_byte (upper : bool) (b : N) : string :=
  String (digit upper (N.shiftr b 4)) (String (digit upper (N.land b 15)) EmptyString).

(** [Buffer.from(bytes).toString("hex")]. *)
Definition encode (bs : list N) : string :=
  fold_right (fun b s => of_byte false b ++ s)%string EmptyString bs.

(** [Buffer.from(bytes).toString("hex").toUpperCase()]. *)
Definition encode_upper (bs : list N) : string :=
  fold_right (fun b s => of_byte true b ++ s)%string EmptyString bs.

(** [String.prototype.toUpperCase] on the characters of a hex string. *)
Definition upper_ascii (c : ascii) : ascii :=
  let n := N_of_ascii c in
  if (97 <=? n) && (n <=? 122) then ascii_of_N (n - 32) else c.

Fixpoint toUpperCase (s : string) : string :=
  match s with
  | EmptyString => EmptyString
  | String c s' => String (upper_ascii c) (toUpperCase s')
  end.
End Hex.

(** The bytes of a string as [hash.update(str)] feeds them (strings are
    kept as their UTF-8 bytes). *)
Fixpoint bytes_of_string (s : string) : list N :=
  match s with
  | EmptyString => []
  | String c s' => N_of_ascii c :: bytes_of_string s'
  end.

(** [sha256Hex(str)] of src/server.js and [sha256(value)] of the SQLite
    server: the lower-case hex digest. *)
Definition sha256Hex (str : string) : string :=
  Hex.encode (Sha256.digest (bytes_of_string str)).

(** ** Numbers

    Both servers compute on JavaScript numbers ([Number(amount)],
    [a - b], [a > b], [!a]); the handlers are written once over the
    operations they use.  [Float64] interprets these operations as the
    IEEE-754 doubles that Node.js and the REAL columns of SQLite compute
    with.  A statement made for every [JsNumber] holds whatever the
    arithmetic does, and so for the doubles of the servers. *)

Class JsNumber (num : Type) := {
  js_zero : num;                   (* the literal 0 *)
  js_tol : num;                    (* the literal 1e-9 *)
  js_add : num -> num -> num;      (* a + b *)
  js_sub : num -> num -> num;      (* a - b *)
  js_lt : num -> num -> bool;      (* a < b *)
  js_le : num -> num -> bool;      (* a <= b *)
  js_truthy : num -> bool          (* ToBoolean(a): not 0, -0 or NaN *)
}.

(** [a > b]. *)
Definition js_gt {num} `{JsNumber num} (a b : num) : bool := js_lt b a.

(** [x || 0] on a number. *)
Definition or_zero {num} `{JsNumber num} (x : num) : num :=
  if js_truthy x then x else js_zero.

(** The PostgreSQL side of src/db.js: columns of type NUMERIC(36,9).
    [pg_store x] is the value an INSERT of the bound parameter [x] leaves
    in such a column, [pg_add_store v x] the value
    [SET col = col + $1] leaves there (rounded to 9 fractional digits);
    [None] is the SQL error raised when the statement fails.
    [parseFloat] reads a column back into a JavaScript number.  [PgFloat]
    gives the three conversions between doubles and NUMERIC(36,9). *)
Class PgNumeric (num numeric : Type) := {
  pg_zero : numeric;                                 (* DEFAULT 0 *)
  pg_store : num -> option numeric;
  pg_add_store : numeric -> num -> option numeric;
  parseFloat : numeric -> num
}.

Module Float64.
Definition truthy (x : float) : bool :=
  negb (PrimFloat.eqb x 0 || PrimFloat.is_nan x).

#[export] Instance number : JsNumber float := {|
  js_zero := 0%float;
  js_tol := 1e-9%float;
  js_add := PrimFloat.add;
  js_sub := PrimFloat.sub;
  js_lt := PrimFloat.ltb;
  js_le := PrimFloat.leb;
  js_truthy := truthy
|}.

End Float64.

(** ** Doubles and NUMERIC(36,9) (node-postgres, PostgreSQL)

    node-postgres sends a number parameter as the text [x.toString()] and
    hands a NUMERIC column back as its decimal text, which [toNumber]
    gives to [parseFloat].  PostgreSQL reads the parameter as a numeric,
    adds exactly, and rounds to 9 fractional digits, ties away from zero,
    when it assigns to the column. *)

Module Decimal.
Local Open Scope Z_scope.

(** Non-negative rationals as fractions [(n, d)], [d > 0]. *)
Definition binary (m e : Z) : Z * Z := (m * 2 ^ Z.max e 0, 2 ^ Z.max (- e) 0).
Definition decimal (s p : Z) : Z * Z := (s * 10 ^ Z.max p 0, 10 ^ Z.max (- p) 0).
Definition le (a b : Z * Z) : bool := fst a * snd b <=? fst b * snd a.
Definition lt (a b : Z * Z) : bool := fst a * snd b <? fst b * snd a.
Definition floor_div (a b : Z * Z) : Z := (fst a * snd b) / (snd a * fst b).

(** [log10 m e] is the [L] with [10^L <= m * 2^e < 10^(L+1)]. *)
Definition log10 (m e : Z) : Z :=
  let est := (Z.log2 m + e) * 1233 / 4096 in
  let x := binary m e in
  if le (decimal 1 (est + 1)) x then est + 1
  else if le (decimal 1 est) x then est else est - 1.

(** [Number::toString(x)] for the double [x = m * 2^e], [m > 0]: the
    decimal [s * 10^p] of [k] digits that reads back as [x], if there is
    one; the closest to [x] when there are two, the even one when both
    are as close.  A decimal reads back as [x] when it lies between the
    midpoints to the neighbours of [x], the midpoints included when [m] is
    even. *)
Definition shortest_at (m e k : Z) : option (Z * Z) :=
  let x := binary (4 * m) (e - 2) in
  let hi := binary (4 * m + 2) (e - 2) in
  let lo := if (m =? 2 ^ 52) && (-1074 <? e)
            then binary (4 * m - 1) (e - 2) else binary (4 * m - 2) (e - 2) in
  let inside v := if Z.even m then le lo v && le v hi else lt lo v && lt v hi in
  let p := log10 m e - k + 1 in
  let t := floor_div x (decimal 1 p) in
  match inside (decimal t p), inside (decimal (t + 1) p) with
  | true, false => Some (t, p)
  | false, true => Some (t + 1, p)
  | false, false => None
  | true, true =>
      let twice := (2 * fst x, snd x) in
      let sum := decimal (2 * t + 1) p in
      if lt twice sum then Some (t, p)
      else if lt sum twice then Some (t + 1, p)
      else Some (if Z.even t then t else t + 1, p)
  end.

Fixpoint shortest_from (fuel : nat) (m e k : Z) : Z * Z :=
  match fuel with
  | O => (0, 0)
  | S fuel =>
      match shortest_at m e k with
      | Some d => d
      | None => shortest_from fuel m e (k + 1)
      end
  end.

(** The fewest digits: 17 always suffice for a double. *)
Definition shortest (m e : Z) : Z * Z := shortest_from 17 m e 1.

(** Rounding the fraction [n / d] to a whole number, ties away from
    zero. *)
Definition round_half_away (n d : Z) : Z :=
  Z.sgn n * ((2 * Z.abs n + d) / (2 * d)).
End Decimal.

Module PgFloat.
Local Open Scope Z_scope.

(** The value of a NUMERIC(36,9) column: a whole number of 10^-9, or the
    NaN of PostgreSQL's numeric type. *)
Inductive numeric := Nanos (n : Z) | NaN.

(** What PostgreSQL reads from the text [x.toString()] of a parameter: a
    decimal, as a fraction of 10^-9; NaN; or an infinity. *)
Inductive parameter := Text (n d : Z) | TextNaN | TextInfinity.

Definition toString (x : float) : parameter :=
  match Prim2SF x with
  | S754_zero _ => Text 0 1
  | S754_finite sign m e =>
      let '(s, p) := Decimal.shortest (Z.pos m) e in
      let '(n, d) := Decimal.decimal s (p + 9) in
      Text (if sign then - n else n) d
  | S754_infinity _ => TextInfinity
  | S754_nan => TextNaN
  end.

(** NUMERIC(36,9) holds at most 27 digits before the decimal point. *)
Definition column (n : Z) : option numeric :=
  if Z.abs n <? 10 ^ 36 then Some (Nanos n) else None.

(** [INSERT ... VALUES ($1)] into a NUMERIC(36,9) column.  An infinite
    parameter fails the statement. *)
Definition store (x : float) : option numeric :=
  match toString x with
  | Text n d => column (Decimal.round_half_away n d)
  | TextNaN => Some NaN
  | TextInfinity => None
  end.

(** [SET col = col + $1] on a NUMERIC(36,9) column holding [v]. *)
Definition add_store (v : numeric) (x : float) : option numeric :=
  match toString x, v with
  | TextInfinity, _ => None
  | TextNaN, _ | _, NaN => Some NaN
  | Text n d, Nanos a => column (Decimal.round_half_away (a * d + n) d)
  end.

(** [parseFloat(val)] of the text of a column: the double nearest to the
    decimal, ties to even. *)
Definition nearest (sign : bool) (n : positive) : float :=
  SF2Prim (SFdiv prec emax (S754_finite sign n 0)
             (S754_finite false (1000000000)%positive 0)).

Definition parse (v : numeric) : float :=
  match v with
  | Nanos 0 => 0%float
  | Nanos (Z.pos n) => nearest false n
  | Nanos (Z.neg n) => nearest true n
  | NaN => nan
  end.

#[export] Instance number : PgNumeric float numeric := {|
  pg_zero := Nanos 0;
  pg_store := store;
  pg_add_store := add_store;
  parseFloat := parse
|}.
End PgFloat.

(** ** Request fields

    A field of a JSON body or of the query string is absent ([None]) or
    carries a value of the type the handler expects.  [!field] is the
    JavaScript falsiness test. *)

Definition str_truthy (o : option string) : bool :=
  match o with
  | Some s => negb (String.eqb s "")
  | None => false
  end.

(** [randomBytes(n).toString("hex")]: the bytes are the caller's. *)
Definition hex_of_bytes (upper : bool) (bs : list Byte.byte) : string :=
  (if upper then Hex.encode_upper else Hex.encode) (map Byte.to_N bs).

Inductive direction := DEPOSIT | WITHDRAW.
Inductive status := PENDING | CONFIRMED | FAILED.

#[export] Instance direction_eq_dec : EqDecision direction.
Proof. solve_decision. Defined.
#[export] Instance status_eq_dec : EqDecision status.
Proof. solve_decision. Defined.

(** ** The SQLite server (better-sqlite3, asynchronous settlement) *)

Module Sqlite.
Section Model.
Context {num : Type} `{JsNumber num}.

(** A row of [zk_proofs]; the primary key [id] is the key of the map
    that holds the table. *)
Record proof_row := {
  wallet_pubkey : string;
  note_hash : string;
  total : num;
  spent : num;
  created_at : Z
}.

(** A row of [transactions]. *)
Record tx_row := {
  tx_id : N;
  tx_wallet_pubkey : string;
  tx_zk_proof_id : string;
  tx_type : direction;
  tx_amount : num;
  tx_recipient : option string;
  tx_signature : option string;
  tx_status : status;
  tx_created_at : Z
}.

(** The variables a detached settlement job closes over. *)
Record job := {
  job_txId : N;
  job_amt : num;
  job_zkProofId : string;
  job_recipient : string
}.

(** The database file, the module-level [poolKeypair] (is it set?) and
    the settlement jobs that have been started and have not finished.
    [sqlite_sequence] is the largest row id AUTOINCREMENT has given. *)
Record state := {
  zk_proofs : gmap string proof_row;
  transactions : list tx_row;
  sqlite_sequence : N;
  poolKeypair : bool;
  jobs : list job
}.

Definition init (pool : bool) : state :=
  {| zk_proofs := ∅; transactions := []; sqlite_sequence := 0%N;
     poolKeypair := pool; jobs := [] |}.

Inductive response :=
| Error (status : nat) (error : string)   (* res.status(n).json({ error }) *)
| Generated (zkProofId note : string)     (* { zkProofId, note } *)
| DepositOk                               (* { ok: true } *)
| WithdrawPending (id : N)                (* { status: "PENDING", id } *)
| History (history : list tx_row).        (* { history } *)

(** [generateZkProofId()]. *)
Definition generateZkProofId (partA partB : list Byte.byte) : string :=
  "ZKP-" ++ hex_of_bytes true partA ++ hex_of_bytes true partB.

(** [generateSecretNote()]. *)
Definition generateSecretNote (bytes : list Byte.byte) : string :=
  hex_of_bytes false bytes.

(** POST /api/zkproofs/generate.  [partA], [partB], [noteBytes] are what
    the three [randomBytes] calls return, [createdAt] is the clock. *)
Definition generate (walletPubkey : option string)
    (partA partB noteBytes : list Byte.byte) (createdAt : Z) (s : state)
  : response * state :=
  match walletPubkey with
  | Some wallet =>
      if negb (str_truthy walletPubkey) then (Error 400 "walletPubkey is required", s)
      else
        let zkProofId := generateZkProofId partA partB in
        let note := generateSecretNote noteBytes in
        let noteHash := sha256Hex note in
        match zk_proofs s !! zkProofId with
        | Some existing => (Error 500 "ID collision, retry request", s)
        | None =>
            let row := {| wallet_pubkey := wallet; note_hash := noteHash;
                          total := js_zero; spent := js_zero;
                          created_at := createdAt |} in
            (Generated zkProofId note,
             {| zk_proofs := <[zkProofId := row]> (zk_proofs s);
                transactions := transactions s;
                sqlite_sequence := sqlite_sequence s;
                poolKeypair := poolKeypair s;
                jobs := jobs s |})
        end
  | None => (Error 400 "walletPubkey is required", s)
  end.

(** [UPDATE zk_proofs SET total = total + ? WHERE id = ?]. *)
Definition add_total (amt : num) (r : proof_row) : proof_row :=
  {| wallet_pubkey := wallet_pubkey r; note_hash := note_hash r;
     total := js_add (total r) amt; spent := spent r;
     created_at := created_at r |}.

(** [UPDATE zk_proofs SET spent = spent + ? WHERE id = ?]. *)
Definition add_spent (amt : num) (r : proof_row) : proof_row :=
  {| wallet_pubkey := wallet_pubkey r; note_hash := note_hash r;
     total := total r; spent := js_add (spent r) amt;
     created_at := created_at r |}.

(** [UPDATE zk_proofs SET spent = spent - ? WHERE id = ?]. *)
Definition sub_spent (amt : num) (r : proof_row) : proof_row :=
  {| wallet_pubkey := wallet_pubkey r; note_hash := note_hash r;
     total := total r; spent := js_sub (spent r) amt;
     created_at := created_at r |}.

(** [UPDATE transactions SET status = ?, tx_signature = ? WHERE id = ?]
    ([signature = None]: the statement that sets the status only). *)
Definition set_status (st : status) (signature : option string) (txId : N)
    (t : tx_row) : tx_row :=
  if N.eqb (tx_id t) txId then
    {| tx_id := tx_id t; tx_wallet_pubkey := tx_wallet_pubkey t;
       tx_zk_proof_id := tx_zk_proof_id t; tx_type := tx_type t;
       tx_amount := tx_amount t; tx_recipient := tx_recipient t;
       tx_signature := match signature with
                       | Some sig => Some sig
                       | None => tx_signature t
                       end;
       tx_status := st; tx_created_at := tx_created_at t |}
  else t.

(** [SELECT * FROM zk_proofs WHERE id = ? AND wallet_pubkey = ?]. *)
Definition select_owned (zkProofId wallet : string) (s : state) : option proof_row :=
  match zk_proofs s !! zkProofId with
  | Some r => if String.eqb (wallet_pubkey r) wallet then Some r else None
  | None => None
  end.

(** [info.lastInsertRowid] of the next INSERT INTO transactions. *)
Definition next_rowid (s : state) : N := (sqlite_sequence s + 1)%N.

(** The transaction [tx] of POST /api/deposits: the UPDATE and the
    INSERT, committed together. *)
Definition deposit_tx (walletPubkey zkProofId : string) (amt : num)
    (txSignature : string) (createdAt : Z) (s : state) : state :=
  {| zk_proofs := alter (add_total amt) zkProofId (zk_proofs s);
     transactions :=
       transactions s ++
         [ {| tx_id := next_rowid s; tx_wallet_pubkey := walletPubkey;
              tx_zk_proof_id := zkProofId; tx_type := DEPOSIT; tx_amount := amt;
              tx_recipient := Some "shielded_pool";
              tx_signature := Some txSignature;
              tx_status := CONFIRMED; tx_created_at := createdAt |} ];
     sqlite_sequence := next_rowid s;
     poolKeypair := poolKeypair s;
     jobs := jobs s |}.

(** POST /api/deposits.  The handler tests the field [amount] as it
    came ([!amount]) and converts it later ([Number(amount)]): [amount] is
    [None] when the field is falsy (absent, null, 0, the empty string,
    false) and [Some amt] when it is truthy and [Number(amount)] is [amt],
    which may be any number: ["0"] gives 0 and ["abc"] gives NaN. *)
Definition deposits (walletPubkey zkProofId : option string) (amount : option num)
    (txSignature : option string) (createdAt : Z) (s : state)
  : response * state :=
  match walletPubkey, zkProofId, amount, txSignature with
  | Some wallet, Some zkp, Some amt, Some sig =>
      if negb (str_truthy walletPubkey) || negb (str_truthy zkProofId)
         || negb (str_truthy txSignature)
      then (Error 400 "walletPubkey, zkProofId, amount, txSignature are required", s)
      else
        match select_owned zkp wallet s with
        | None => (Error 404 "zk_proof not found for this wallet", s)
        | Some proof =>
            (* const amt = Number(amount) *)
            if negb (js_gt amt js_zero) then (Error 400 "amount must be > 0", s)
            else (DepositOk, deposit_tx wallet zkp amt sig createdAt s)
        end
  | _, _, _, _ =>
      (Error 400 "walletPubkey, zkProofId, amount, txSignature are required", s)
  end.

(** The transaction [tx] of POST /api/withdrawals: the reservation and
    the PENDING row, committed together. *)
Definition withdraw_tx (wallet zkProofId : string) (amt : num)
    (recipient : string) (createdAt : Z) (s : state) : state :=
  {| zk_proofs := alter (add_spent amt) zkProofId (zk_proofs s);
     transactions :=
       transactions s ++
         [ {| tx_id := next_rowid s; tx_wallet_pubkey := wallet;
              tx_zk_proof_id := zkProofId; tx_type := WITHDRAW; tx_amount := amt;
              tx_recipient := Some recipient; tx_signature := None;
              tx_status := PENDING; tx_created_at := createdAt |} ];
     sqlite_sequence := next_rowid s;
     poolKeypair := poolKeypair s;
     jobs := jobs s |}.

(** The detached [(async () => { ... })()] is started. *)
Definition start_job (j : job) (s : state) : state :=
  {| zk_proofs := zk_proofs s; transactions := transactions s;
     sqlite_sequence := sqlite_sequence s; poolKeypair := poolKeypair s;
     jobs := jobs s ++ [j] |}.

(** POST /api/withdrawals, up to [res.json] and the start of the job;
    the job's body runs in [settle].  [amount] is read as in [deposits]:
    [None] when [!amount] holds, [Some amt] when the field is truthy and
    [Number(amount)], taken after the note is checked, is [amt]. *)
Definition withdrawals (zkProofId note : option string) (amount : option num)
    (recipient : option string) (createdAt : Z) (s : state)
  : response * state :=
  match zkProofId, note, amount, recipient with
  | Some zkp, Some nt, Some amt, Some rcpt =>
      if negb (str_truthy zkProofId) || negb (str_truthy note)
         || negb (str_truthy recipient)
      then (Error 400 "zkProofId, note, amount, recipient are required", s)
      else if negb (poolKeypair s)
      then (Error 500 "Withdrawals are not configured on this server.", s)
      else
        match zk_proofs s !! zkp with
        | None => (Error 404 "zk_proof not found", s)
        | Some proof =>
            let expectedHash := note_hash proof in
            let givenHash := sha256Hex nt in
            if negb (String.eqb expectedHash givenHash)
            then (Error 403 "Invalid secret_note for this zk_proof_id", s)
            else (* const amt = Number(amount) *)
            if negb (js_gt amt js_zero)
            then (Error 400 "amount must be > 0", s)
            else
              let currentBalance :=
                js_sub (or_zero (total proof)) (or_zero (spent proof)) in
              if js_gt amt (js_add currentBalance js_tol)
              then (Error 400 "Insufficient shielded balance", s)
              else
                let txId := next_rowid s in
                (WithdrawPending txId,
                 start_job {| job_txId := txId; job_amt := amt;
                              job_zkProofId := zkp; job_recipient := rcpt |}
                   (withdraw_tx (wallet_pubkey proof) zkp amt rcpt createdAt s))
        end
  | _, _, _, _ =>
      (Error 400 "zkProofId, note, amount, recipient are required", s)
  end.

(** The job's [try] after [sendFromPool] returned [signature]: one
    UPDATE of [transactions]. *)
Definition confirm (txId : N) (signature : string) (s : state) : state :=
  {| zk_proofs := zk_proofs s;
     transactions := map (set_status CONFIRMED (Some signature) txId) (transactions s);
     sqlite_sequence := sqlite_sequence s;
     poolKeypair := poolKeypair s;
     jobs := jobs s |}.

(** [x] is NaN: the one number for which [x <= x] fails. *)
Definition is_NaN (x : num) : bool := negb (js_le x x).

(** The second UPDATE of [tx2] cannot be done: SQLite turns a NaN result
    into NULL, which [spent REAL NOT NULL] refuses. *)
Definition not_null_fails (amt : num) (zkProofId : string) (s : state) : bool :=
  match zk_proofs s !! zkProofId with
  | Some r => is_NaN (js_sub (spent r) amt)
  | None => false
  end.

(** The transaction [tx2] of the job's [catch]: the row is marked FAILED
    and the reserved amount is given back, committed together.  [None]:
    the second UPDATE throws, [db.transaction] rolls the first one back
    and throws in turn. *)
Definition compensate_tx (txId : N) (amt : num) (zkProofId : string) (s : state)
  : option state :=
  if not_null_fails amt zkProofId s then None
  else
    Some {| zk_proofs := alter (sub_spent amt) zkProofId (zk_proofs s);
            transactions := map (set_status FAILED None txId) (transactions s);
            sqlite_sequence := sqlite_sequence s;
            poolKeypair := poolKeypair s;
            jobs := jobs s |}.

(** The body of the detached job once [sendFromPool] has answered:
    [Some signature] when it returned, [None] when it threw.  What [tx2]
    throws inside the [catch] is caught by nobody: the database stays as
    it was. *)
Definition settle_job (j : job) (outcome : option string) (s : state) : state :=
  match outcome with
  | Some signature => confirm (job_txId j) signature s
  | None =>
      match compensate_tx (job_txId j) (job_amt j) (job_zkProofId j) s with
      | Some s' => s'
      | None => s
      end
  end.

Definition is_job (txId : N) (j : job) : bool := N.eqb (job_txId j) txId.

(** The job is over. *)
Definition end_job (txId : N) (s : state) : state :=
  {| zk_proofs := zk_proofs s; transactions := transactions s;
     sqlite_sequence := sqlite_sequence s; poolKeypair := poolKeypair s;
     jobs := List.filter (fun j => negb (is_job txId j)) (jobs s) |}.

(** The job of withdrawal [txId] finishes, if it is still running. *)
Definition settle (txId : N) (outcome : option string) (s : state) : state :=
  match find (is_job txId) (jobs s) with
  | Some j => end_job txId (settle_job j outcome s)
  | None => s
  end.

(** [datetime(created_at)]: the timestamp cut to whole seconds (the
    clock counts milliseconds). *)
Definition datetime (t : Z) : Z := (t / 1000)%Z.

(** [ORDER BY datetime(created_at) DESC, id DESC]: [a] comes no later
    than [b]. *)
Definition newer (a b : tx_row) : Prop :=
  (datetime (tx_created_at b) < datetime (tx_created_at a))%Z
  ∨ (datetime (tx_created_at b) = datetime (tx_created_at a)
     ∧ (tx_id b <= tx_id a)%N).

#[export] Instance newer_dec a b : Decision (newer a b).
Proof. unfold newer. apply _. Defined.

(** The projection of GET /api/history: [amount: Number(r.amount || 0)]. *)
Definition view (r : tx_row) : tx_row :=
  {| tx_id := tx_id r; tx_wallet_pubkey := tx_wallet_pubkey r;
     tx_zk_proof_id := tx_zk_proof_id r; tx_type := tx_type r;
     tx_amount := or_zero (tx_amount r); tx_recipient := tx_recipient r;
     tx_signature := tx_signature r; tx_status := tx_status r;
     tx_created_at := tx_created_at r |}.

Definition of_wallet (wallet : string) (r : tx_row) : bool :=
  String.eqb (tx_wallet_pubkey r) wallet.

(** GET /api/history. *)
Definition history (wallet : option string) (s : state) : response * state :=
  match wallet with
  | Some w =>
      if negb (str_truthy wallet) then (Error 400 "wallet is required", s)
      else
        let rows := merge_sort newer (List.filter (of_wallet w) (transactions s)) in
        (History (map view rows), s)
  | None => (Error 400 "wallet is required", s)
  end.

(** What happens to the server: a request arrives, or a settlement job
    finishes. *)
Inductive event :=
| Generate (walletPubkey : option string) (partA partB noteBytes : list Byte.byte)
    (createdAt : Z)
| Deposit (walletPubkey zkProofId : option string) (amount : option num)
    (txSignature : option string) (createdAt : Z)
| Withdraw (zkProofId note : option string) (amount : option num)
    (recipient : option string) (createdAt : Z)
| GetHistory (wallet : option string)
| Settle (txId : N) (outcome : option string).

Definition step (s : state) (e : event) : state :=
  match e with
  | Generate w a b n t => snd (generate w a b n t s)
  | Deposit w z a sig t => snd (deposits w z a sig t s)
  | Withdraw z n a r t => snd (withdrawals z n a r t s)
  | GetHistory w => snd (history w s)
  | Settle txId outcome => settle txId outcome s
  end.

(** The state after a serialized sequence of events. *)
Definition run (s : state) (es : list event) : state := fold_left step es s.

Definition reachable (s : state) : Prop :=
  ∃ pool es, s = run (init pool) es.

(** *** The life of a row of [transactions]

    [same_request t t']: the two rows differ at most in [status] and
    [tx_signature]. *)
Definition same_request (t t' : tx_row) : Prop :=
  tx_id t' = tx_id t ∧ tx_wallet_pubkey t' = tx_wallet_pubkey t
  ∧ tx_zk_proof_id t' = tx_zk_proof_id t ∧ tx_type t' = tx_type t
  ∧ tx_amount t' = tx_amount t ∧ tx_recipient t' = tx_recipient t
  ∧ tx_created_at t' = tx_created_at t.


(** *** Consistency of the tables

    [job_row j t]: [t] is the row the handler inserted when it started
    job [j]. *)
Definition job_row (j : job) (t : tx_row) : Prop :=
  tx_id t = job_txId j ∧ tx_status t = PENDING ∧ tx_type t = WITHDRAW
  ∧ tx_amount t = job_amt j ∧ tx_zk_proof_id t = job_zkProofId j
  ∧ tx_recipient t = Some (job_recipient j).

Record consistent (s : state) : Prop := {
  ids_bounded : Forall (λ t, (tx_id t <= sqlite_sequence s)%N) (transactions s);
  ids_distinct : NoDup (map tx_id (transactions s));
  jobs_pending : Forall (λ j, ∃ t, t ∈ transactions s ∧ job_row j t) (jobs s);
  rows_owned :
    Forall (λ t, ∃ r, zk_proofs s !! tx_zk_proof_id t = Some r
                      ∧ wallet_pubkey r = tx_wallet_pubkey t) (transactions s)
}.
End Model.

Arguments proof_row : clear implicits.
Arguments tx_row : clear implicits.
Arguments job : clear implicits.
Arguments state : clear implicits.
Arguments response : clear implicits.
Arguments event : clear implicits.
End Sqlite.

(** ** The PostgreSQL server (src/server.js, src/db.js) *)

Module Pg.
Section Model.
Context {num numeric : Type} `{JsNumber num} `{PgNumeric num numeric}.

(** A row of [zk_proofs]; the UNIQUE column [zk_proof_id] is the key of
    the map that holds the table.  (The SERIAL [id] columns are read by
    no handler and are left out.) *)
Record proof_row := {
  wallet_pubkey : string;
  note_hash : string;
  total_amount : numeric;
  spent_amount : numeric;
  created_at : Z
}.

(** A row of [zk_transfers]. *)
Record transfer_row := {
  tr_zk_proof_id : string;
  tr_wallet_pubkey : string;
  tr_direction : direction;
  tr_amount : numeric;
  tr_recipient : option string;
  tr_tx_signature : option string;
  tr_created_at : Z
}.

Record state := {
  zk_proofs : gmap string proof_row;
  zk_transfers : list transfer_row
}.

Definition init : state := {| zk_proofs := ∅; zk_transfers := [] |}.

(** An element of the [history] array. *)
Record history_row := {
  h_zkProofId : string;
  h_type : direction;
  h_amount : num;
  h_recipient : option string;
  h_txSignature : option string;
  h_createdAt : Z
}.

Inductive response :=
| Error (status : nat) (error : string)   (* res.status(n).json({ error }) *)
| Generated (zkProofId note : string)     (* { zkProofId, note } *)
| Ok (zkProofId : string) (balance total spent : num)
                               (* { ok: true, zkProofId, balance, total, spent } *)
| History (history : list history_row).   (* { history } *)

(** [toNumber(val)]. *)
Definition toNumber (val : option numeric) : num :=
  match val with
  | None => js_zero
  | Some v => parseFloat v
  end.

(** [txSignature || null]. *)
Definition or_null (o : option string) : option string :=
  if str_truthy o then o else None.

(** The identifier of POST /api/zkproofs/generate:
    commitment = hash(walletPubkey + ":" + noteHash), its first 16 hex
    digits in upper case behind "ZKP-". *)
Definition commitment (walletPubkey noteHash : string) : string :=
  let rawCommit := walletPubkey ++ ":" ++ noteHash in
  let commitHash := sha256Hex rawCommit in
  "ZKP-" ++ Hex.toUpperCase (String.substring 0 16 commitHash).

(** The identifier a request of [walletPubkey] gets when [randomBytes(32)]
    returns [noteBytes]. *)
Definition zkProofId_for (walletPubkey : string) (noteBytes : list Byte.byte)
  : string :=
  commitment walletPubkey (sha256Hex (hex_of_bytes false noteBytes)).

(** POST /api/zkproofs/generate.  [noteBytes] is what [randomBytes(32)]
    returns, [now] the time of the INSERT. *)
Definition generate (walletPubkey : option string) (noteBytes : list Byte.byte)
    (now : Z) (s : state) : response * state :=
  match walletPubkey with
  | Some wallet =>
      if negb (str_truthy walletPubkey) then (Error 400 "walletPubkey is required", s)
      else
        let note := hex_of_bytes false noteBytes in
        let noteHash := sha256Hex note in
        let zkProofId := commitment wallet noteHash in
        let row := {| wallet_pubkey := wallet; note_hash := noteHash;
                      total_amount := pg_zero; spent_amount := pg_zero;
                      created_at := now |} in
        (Generated zkProofId note,
         (* INSERT ... ON CONFLICT (zk_proof_id) DO NOTHING *)
         match zk_proofs s !! zkProofId with
         | Some _ => s
         | None => {| zk_proofs := <[zkProofId := row]> (zk_proofs s);
                      zk_transfers := zk_transfers s |}
         end)
  | None => (Error 400 "walletPubkey is required", s)
  end.

Definition with_total (v : numeric) (r : proof_row) : proof_row :=
  {| wallet_pubkey := wallet_pubkey r; note_hash := note_hash r;
     total_amount := v; spent_amount := spent_amount r;
     created_at := created_at r |}.

Definition with_spent (v : numeric) (r : proof_row) : proof_row :=
  {| wallet_pubkey := wallet_pubkey r; note_hash := note_hash r;
     total_amount := total_amount r; spent_amount := v;
     created_at := created_at r |}.

(** The answer built from the row read back before COMMIT. *)
Definition ok_response (zkProofId : string) (updated : proof_row) : response :=
  let total := toNumber (Some (total_amount updated)) in
  let spent := toNumber (Some (spent_amount updated)) in
  let balance := js_sub total spent in
  Ok zkProofId balance total spent.

(** POST /api/deposits: one transaction from BEGIN to COMMIT.  A failing
    statement throws; the [catch] rolls back and answers 500.  The handler
    looks at [amount] through [Number(amount)] only: [Some amt] is a field
    that converts to [amt], [None] an absent one. *)
Definition deposits (walletPubkey zkProofId : option string) (amount : option num)
    (txSignature : option string) (now : Z) (s : state) : response * state :=
  match walletPubkey, zkProofId, amount with
  | Some wallet, Some zkp, Some amt =>
      if negb (str_truthy walletPubkey) || negb (str_truthy zkProofId)
         || negb (js_truthy amt) || js_le amt js_zero
      then (Error 400 "walletPubkey, zkProofId and positive amount are required", s)
      else
        match zk_proofs s !! zkp with
        | None => (Error 404 "zk_proof not found", s)
        | Some proof =>
            if negb (String.eqb (wallet_pubkey proof) wallet)
            then (Error 400 "walletPubkey does not own this zk_proof_id", s)
            else
              match pg_add_store (total_amount proof) amt, pg_store amt with
              | Some total', Some stored =>
                  let updated := with_total total' proof in
                  let row := {| tr_zk_proof_id := zkp; tr_wallet_pubkey := wallet;
                                tr_direction := DEPOSIT; tr_amount := stored;
                                tr_recipient := None;
                                tr_tx_signature := or_null txSignature;
                                tr_created_at := now |} in
                  (ok_response zkp updated,
                   {| zk_proofs := <[zkp := updated]> (zk_proofs s);
                      zk_transfers := zk_transfers s ++ [row] |})
              | _, _ => (Error 500 "internal_error", s)
              end
        end
  | _, _, _ =>
      (* Number(undefined) is NaN and Number(null) is 0: [!amt] holds *)
      (Error 400 "walletPubkey, zkProofId and positive amount are required", s)
  end.

(** POST /api/withdrawals: one transaction from BEGIN to COMMIT. *)
Definition withdrawals (zkProofId note : option string) (amount : option num)
    (recipient txSignature : option string) (now : Z) (s : state)
  : response * state :=
  match zkProofId, note, recipient, amount with
  | Some zkp, Some nt, Some rcpt, Some amt =>
      if negb (str_truthy zkProofId) || negb (str_truthy note)
         || negb (str_truthy recipient) || negb (js_truthy amt) || js_le amt js_zero
      then (Error 400 "zkProofId, note, recipient and positive amount are required", s)
      else
        let noteHash := sha256Hex nt in
        match zk_proofs s !! zkp with
        | None => (Error 404 "zk_proof not found", s)
        | Some proof =>
            if negb (String.eqb (note_hash proof) noteHash)
            then (Error 400 "invalid note for this zk_proof_id", s)
            else
              let total := toNumber (Some (total_amount proof)) in
              let spent := toNumber (Some (spent_amount proof)) in
              let available := js_sub total spent in
              if js_lt available amt then (Error 400 "insufficient balance", s)
              else
                match pg_add_store (spent_amount proof) amt, pg_store amt with
                | Some spent', Some stored =>
                    let updated := with_spent spent' proof in
                    let row := {| tr_zk_proof_id := zkp;
                                  tr_wallet_pubkey := wallet_pubkey proof;
                                  tr_direction := WITHDRAW; tr_amount := stored;
                                  tr_recipient := Some rcpt;
                                  tr_tx_signature := or_null txSignature;
                                  tr_created_at := now |} in
                    (ok_response zkp updated,
                     {| zk_proofs := <[zkp := updated]> (zk_proofs s);
                        zk_transfers := zk_transfers s ++ [row] |})
                | _, _ => (Error 500 "internal_error", s)
                end
        end
  | _, _, _, _ =>
      (Error 400 "zkProofId, note, recipient and positive amount are required", s)
  end.

(** [ORDER BY created_at DESC]: [a] comes no later than [b]. *)
Definition newer (a b : transfer_row) : Prop := (tr_created_at b <= tr_created_at a)%Z.

#[export] Instance newer_dec a b : Decision (newer a b).
Proof. unfold newer. apply _. Defined.

Definition view (r : transfer_row) : history_row :=
  {| h_zkProofId := tr_zk_proof_id r; h_type := tr_direction r;
     h_amount := toNumber (Some (tr_amount r)); h_recipient := tr_recipient r;
     h_txSignature := tr_tx_signature r; h_createdAt := tr_created_at r |}.

Definition of_wallet (wallet : string) (r : transfer_row) : bool :=
  String.eqb (tr_wallet_pubkey r) wallet.

(** [SELECT ... WHERE wallet_pubkey = $1 ORDER BY created_at DESC LIMIT 200]. *)
Definition select_history (wallet : string) (s : state) : list transfer_row :=
  firstn 200 (merge_sort newer (List.filter (of_wallet wallet) (zk_transfers s))).

(** GET /api/history. *)
Definition history (wallet : option string) (s : state) : response * state :=
  match wallet with
  | Some w =>
      if negb (str_truthy wallet)
      then (Error 400 "wallet query param is required", s)
      else (History (map view (select_history w s)), s)
  | None => (Error 400 "wallet query param is required", s)
  end.

Inductive event :=
| Generate (walletPubkey : option string) (noteBytes : list Byte.byte) (now : Z)
| Deposit (walletPubkey zkProofId : option string) (amount : option num)
    (txSignature : option string) (now : Z)
| Withdraw (zkProofId note : option string) (amount : option num)
    (recipient txSignature : option string) (now : Z)
| GetHistory (wallet : option string).

Definition step (s : state) (e : event) : state :=
  match e with
  | Generate w n t => snd (generate w n t s)
  | Deposit w z a sig t => snd (deposits w z a sig t s)
  | Withdraw z n a r sig t => snd (withdrawals z n a r sig t s)
  | GetHistory w => snd (history w s)
  end.

(** The state after a serialized sequence of requests. *)
Definition run (s : state) (es : list event) : state := fold_left step es s.

Definition reachable (s : state) : Prop := ∃ es, s = run init es.


(** Every transfer names an entry, and the wallet of that entry. *)
Definition consistent (s : state) : Prop :=
  Forall (λ t, ∃ r, zk_proofs s !! tr_zk_proof_id t = Some r
                    ∧ wallet_pubkey r = tr_wallet_pubkey t) (zk_transfers s).
End Model.

Arguments proof_row : clear implicits.
Arguments transfer_row : clear implicits.
Arguments state : clear implicits.
Arguments history_row : clear implicits.
Arguments response : clear implicits.
Arguments event : clear implicits.
End Pg.

(** ** Scenarios *)
Module Scenario.
Import Sqlite Float64 PgFloat.

Definition walletA : string := "7xKXtg2CW87d97TXJSDpbD5jBkheTqA83TZRuJosgAsU".
Definition recipient : string := "9WzDXwBbmkg8ZTbNMqUxvQRAyrZzDsGYdLVL9zYtAWWM".
Definition partA : list Byte.byte := [Byte.x01; Byte.x02; Byte.x03; Byte.x04].
Definition partB : list Byte.byte := [Byte.x0a; Byte.x0b; Byte.x0c].
Definition noteBytes : list Byte.byte := repeat Byte.xab 32.
Definition zkp : string := "ZKP-010203040A0B0C".
Definition note : string := generateSecretNote noteBytes.

(** An identifier is issued, 1 is deposited. *)
Definition funded : list (event float) :=
  [ Generate (Some walletA) partA partB noteBytes 1000;
    Deposit (Some walletA) (Some zkp) (Some 1%float) (Some "5VERv8") 2000 ].

Definition sq_funded : state float := run (init true) funded.

(** Then 0.5 is withdrawn and the job is still running. *)
Definition sq_pending : state float :=
  step sq_funded (Withdraw (Some zkp) (Some note) (Some 0.5%float) (Some recipient) 3000).


(** The same requests on a server started without pool key. *)
Definition sq_no_key : state float := run (init false) funded.


(** The PostgreSQL server: an identifier is issued and 1 is deposited,
    without settlement reference. *)
Definition pg_zkp : string := Pg.zkProofId_for walletA noteBytes.

Definition pg_funded : Pg.state numeric :=
  Pg.run Pg.init
    [ Pg.Generate (Some walletA) noteBytes 1000;
      Pg.Deposit (Some walletA) (Some pg_zkp) (Some 1%float) None 2000 ].

(** The PostgreSQL server after deposits of 2^53 and of 3: the column
    holds 9007199254740995, which is no double. *)
Definition pg_large : Pg.state numeric :=
  Pg.run Pg.init
    [ Pg.Generate (Some walletA) noteBytes 1000;
      Pg.Deposit (Some walletA) (Some pg_zkp) (Some 9007199254740992%float) None 2000;
      Pg.Deposit (Some walletA) (Some pg_zkp) (Some 3%float) None 3000 ].
End Scenario.

(** ** The routes and helpers around the ledger operations *)

(** The digits [Buffer.toString("hex")] writes, and their upper-case
    forms. *)
Definition lower_hex (c : ascii) : bool :=
  let n := N_of_ascii c in
  ((48 <=? n) && (n <=? 57) || (97 <=? n) && (n <=? 102))%N.

Definition upper_hex (c : ascii) : bool :=
  let n := N_of_ascii c in
  ((48 <=? n) && (n <=? 57) || (65 <=? n) && (n <=? 70))%N.

(** Every character of [s] satisfies [p]. *)
Fixpoint every_char (p : ascii → bool) (s : string) : bool :=
  match s with
  | EmptyString => true
  | String c s' => p c && every_char p s'
  end.

(** [a || b] on strings that may be null or undefined. *)
Definition str_or (a b : option string) : option string :=
  if str_truthy a then a else b.

(** The decision of the [origin] callback given to [cors]:
    [callback(null, true)] or [callback(new Error(message))]. *)
Inductive cors := Allow | Deny (message : string).

(** *** The SQLite server *)

Module SqliteRoutes.
Section Routes.
Context {num : Type} `{JsNumber num}.
Import Sqlite.

(** [POOL_ADDRESS]: [process.env.POOL_PUBKEY], else the address of the
    pool key pair when one was loaded ([publicKey] is its
    [publicKey.toBase58()]), else the literal. *)
Definition POOL_ADDRESS (POOL_PUBKEY publicKey : option string) : string :=
  match str_or (str_or POOL_PUBKEY publicKey)
               (Some "8hGDXBJqpCZvWaDcbvXykRSb1bKbbJ5Ji4c85ubYvkaA") with
  | Some address => address
  | None => ""
  end.

Definition allowedOrigins : list string :=
  [ "https://tnemyap.app"; "https://tnemyap.app/";
    "https://zknon.com"; "https://zknon.com/";
    "http://localhost:3000"; "http://localhost:5173" ].

(** The [origin] callback of the CORS middleware. *)
Definition origin (o : option string) : cors :=
  match o with
  | Some v =>
      if negb (str_truthy o) then Allow
      else if existsb (String.eqb v) allowedOrigins then Allow
      else Deny ("Not allowed by CORS: " ++ v)
  | None => Allow
  end.

(** An element of the [proofs] array of GET /api/zkproofs. *)
Record proof_view := {
  v_zkProofId : string;
  v_walletPubkey : string;
  v_total : num;
  v_spent : num;
  v_balance : num;
  v_createdAt : Z
}.

Inductive listing :=
| Refused (status : nat) (error : string)   (* res.status(n).json({ error }) *)
| Proofs (proofs : list proof_view).        (* { proofs } *)

(** [ORDER BY datetime(created_at) DESC] on [zk_proofs]: [a] comes no
    later than [b].  (SQL leaves the order of rows of the same second
    open; [merge_sort] fixes one.) *)
Definition later (a b : string * proof_row num) : Prop :=
  (datetime (created_at b.2) <= datetime (created_at a.2))%Z.

#[export] Instance later_dec a b : Decision (later a b).
Proof. unfold later. apply _. Defined.

(** [WHERE wallet_pubkey = ?]. *)
Definition owned_by (wallet : string) (kr : string * proof_row num) : bool :=
  String.eqb (wallet_pubkey kr.2) wallet.

(** The body of [rows.map((r) => ...)]. *)
Definition to_view (kr : string * proof_row num) : proof_view :=
  let r := kr.2 in
  let total := or_zero (total r) in
  let spent := or_zero (spent r) in
  let balance := js_sub total spent in
  {| v_zkProofId := kr.1; v_walletPubkey := wallet_pubkey r;
     v_total := total; v_spent := spent; v_balance := balance;
     v_createdAt := created_at r |}.

(** GET /api/zkproofs. *)
Definition zkproofs (wallet : option string) (s : state num) : listing * state num :=
  match wallet with
  | Some w =>
      if negb (str_truthy wallet) then (Refused 400 "wallet is required", s)
      else
        let rows :=
          merge_sort later (List.filter (owned_by w) (map_to_list (zk_proofs s))) in
        (Proofs (map to_view rows), s)
  | None => (Refused 400 "wallet is required", s)
  end.
End Routes.

Arguments proof_view : clear implicits.
Arguments listing : clear implicits.
End SqliteRoutes.

(** *** The PostgreSQL server *)

Module PgRoutes.
Section Routes.
Context {num numeric : Type} `{JsNumber num} `{PgNumeric num numeric}.
Import Pg.

Definition allowedOrigins : list string :=
  [ "https://tnemyap.app"; "https://zknon.com" ].

(** The [origin] callback of the CORS middleware. *)
Definition origin (o : option string) : cors :=
  match o with
  | Some v =>
      if negb (str_truthy o) then Allow
      else if existsb (String.eqb v) allowedOrigins then Allow
      else Deny "Not allowed by CORS"
  | None => Allow
  end.

(** An element of the [proofs] array of GET /api/zkproofs. *)
Record proof_view := {
  v_zkProofId : string;
  v_total : num;
  v_spent : num;
  v_balance : num;
  v_createdAt : Z
}.

Inductive listing :=
| Refused (status : nat) (error : string)   (* res.status(n).json({ error }) *)
| Proofs (proofs : list proof_view).        (* { proofs: result } *)

(** [ORDER BY created_at DESC] on [zk_proofs]: [a] comes no later than [b]. *)
Definition later (a b : string * proof_row numeric) : Prop :=
  (created_at b.2 <= created_at a.2)%Z.

#[export] Instance later_dec a b : Decision (later a b).
Proof. unfold later. apply _. Defined.

(** [WHERE wallet_pubkey = $1]. *)
Definition owned_by (wallet : string) (kr : string * proof_row numeric) : bool :=
  String.eqb (wallet_pubkey kr.2) wallet.

(** The body of [rows.map((r) => ...)]. *)
Definition to_view (kr : string * proof_row numeric) : proof_view :=
  let r := kr.2 in
  let total := toNumber (Some (total_amount r)) in
  let spent := toNumber (Some (spent_amount r)) in
  let balance := js_sub total spent in
  {| v_zkProofId := kr.1; v_total := total; v_spent := spent;
     v_balance := balance; v_createdAt := created_at r |}.

(** GET /api/zkproofs. *)
Definition zkproofs (wallet : option string) (s : state numeric)
  : listing * state numeric :=
  match wallet with
  | Some w =>
      if negb (str_truthy wallet)
      then (Refused 400 "wallet query param is required", s)
      else
        let rows :=
          merge_sort later (List.filter (owned_by w) (map_to_list (zk_proofs s))) in
        (Proofs (map to_view rows), s)
  | None => (Refused 400 "wallet query param is required", s)
  end.
End Routes.

Arguments proof_view : clear implicits.
Arguments listing : clear implicits.
End PgRoutes.

(** ** What a client is answered

    The response an event draws from the server; the end of a settlement
    job answers no one. *)

Definition sq_answer {num : Type} `{JsNumber num} (s : Sqlite.state num)
    (e : Sqlite.event num) : option (Sqlite.response num) :=
  match e with
  | Sqlite.Generate w a b n t => Some (fst (Sqlite.generate w a b n t s))
  | Sqlite.Deposit w z a sig t => Some (fst (Sqlite.deposits w z a sig t s))
  | Sqlite.Withdraw z n a r t => Some (fst (Sqlite.withdrawals z n a r t s))
  | Sqlite.GetHistory w => Some (fst (Sqlite.history w s))
  | Sqlite.Settle _ _ => None
  end.

Definition pg_answer {num numeric : Type} `{JsNumber num} `{PgNumeric num numeric}
    (s : Pg.state numeric) (e : Pg.event num) : Pg.response num :=
  match e with
  | Pg.Generate w n t => fst (Pg.generate w n t s)
  | Pg.Deposit w z a sig t => fst (Pg.deposits w z a sig t s)
  | Pg.Withdraw z n a r sig t => fst (Pg.withdrawals z n a r sig t s)
  | Pg.GetHistory w => fst (Pg.history w s)
  end.

(** ** What stays of an entry

    [r'] is the entry [r] with, at most, other accumulators. *)

Definition sq_same_entry {num : Type} (r r' : Sqlite.proof_row num) : Prop :=
  Sqlite.wallet_pubkey r' = Sqlite.wallet_pubkey r
  ∧ Sqlite.note_hash r' = Sqlite.note_hash r
  ∧ Sqlite.created_at r' = Sqlite.created_at r.

Definition pg_same_entry {numeric : Type} (r r' : Pg.proof_row numeric) : Prop :=
  Pg.wallet_pubkey r' = Pg.wallet_pubkey r
  ∧ Pg.note_hash r' = Pg.note_hash r
  ∧ Pg.created_at r' = Pg.created_at r.

(** ** A server that has reserved nothing

    No pool key, no settlement job, no row but confirmed deposits, and
    [spent] at its initial 0 in every entry. *)

Definition sq_idle {num : Type} `{JsNumber num} (s : Sqlite.state num) : Prop :=
  Sqlite.poolKeypair s = false ∧ Sqlite.jobs s = []
  ∧ Forall (λ t, Sqlite.tx_type t = DEPOSIT ∧ Sqlite.tx_status t = CONFIRMED)
      (Sqlite.transactions s)
  ∧ map_Forall (λ _ r, Sqlite.spent r = js_zero) (Sqlite.zk_proofs s).

(** ** [sendFromPool] and the body of the settlement job (SQLite server)

    [Math.round(amountSol * LAMPORTS_PER_SOL)]: [None] stands for a
    result that is NaN or infinite. *)

Class Lamports (num : Type) := { lamports_of : num → option Z }.

Module Pool.

(** [Math.round] on a double: the nearest integer, ties towards
    +Infinity. *)
Definition Math_round (x : float) : option Z :=
  match Prim2SF x with
  | S754_zero _ => Some 0%Z
  | S754_finite sign m e =>
      let v := if sign then Z.neg m else Z.pos m in
      if (0 <=? e)%Z then Some (v * 2 ^ e)%Z
      else Some ((2 * v + 2 ^ (- e)) / 2 ^ (- e + 1))%Z
  | S754_infinity _ | S754_nan => None
  end.

Definition LAMPORTS_PER_SOL : float := 1000000000%float.

#[export] Instance float_lamports : Lamports float :=
  {| lamports_of := fun amountSol => Math_round (amountSol * LAMPORTS_PER_SOL)%float |}.

(** What [sendFromPool] calls in @solana/web3.js; every call returns or
    throws. *)
Record web3 := {
  (* [new PublicKey(recipientAddress)] returns *)
  PublicKey : string → bool;
  (* [connection.getLatestBlockhash("finalized")]: the blockhash *)
  getLatestBlockhash : option string;
  (* the transfer of [lamports] to the recipient, built on the blockhash,
     signed, serialized and given to [connection.sendRawTransaction]: the
     signature *)
  sendRawTransaction : string → string → option Z → option string;
  (* [connection.confirmTransaction] of the signature returns *)
  confirmTransaction : string → string → bool
}.

Section Send.
Context {num : Type} `{JsNumber num} `{Lamports num}.

(** [sendFromPool(recipientAddress, amountSol)]: the signature, or
    [None] when it throws. *)
Definition sendFromPool (poolKeypair : bool) (connection : web3)
    (recipientAddress : string) (amountSol : num) : option string :=
  if negb poolKeypair then None
  else if negb (PublicKey connection recipientAddress) then None
  else
    let lamports := lamports_of amountSol in
    match getLatestBlockhash connection with
    | None => None
    | Some blockhash =>
        match sendRawTransaction connection blockhash recipientAddress lamports with
        | None => None
        | Some signature =>
            (* try { await connection.confirmTransaction(...) }
               catch (err) { console.warn(...) } *)
            if confirmTransaction connection signature blockhash
            then Some signature
            else Some signature
        end
    end.

(** The detached job of POST /api/withdrawals, from [sendFromPool] to
    its last statement. *)
Definition job_body (connection : web3) (j : Sqlite.job num) (s : Sqlite.state num)
  : Sqlite.state num :=
  Sqlite.settle (Sqlite.job_txId j)
    (sendFromPool (Sqlite.poolKeypair s) connection
       (Sqlite.job_recipient j) (Sqlite.job_amt j))
    s.
End Send.
End Pool.

(** * Part II: theorems *)

(* Handlers are unfolded where a proof asks for it, not by [simpl]. *)
Arguments Sqlite.generate : simpl never.
Arguments Sqlite.deposits : simpl never.
Arguments Sqlite.withdrawals : simpl never.
Arguments Sqlite.history : simpl never.
Arguments Sqlite.settle : simpl never.
Arguments Pg.generate : simpl never.
Arguments Pg.deposits : simpl never.
Arguments Pg.withdrawals : simpl never.
Arguments Pg.history : simpl never.
Arguments sha256Hex : simpl never.

(** ** SHA-256: the test vectors of FIPS 180-4 *)

Example sha256Hex_empty :
  sha256Hex "" = "e3b0c44298fc1c149afbf4c8996fb92427ae41e4649b934ca495991b7852b855".
Proof. vm_compute. reflexivity. Qed.

Example sha256Hex_abc :
  sha256Hex "abc" = "ba7816bf8f01cfea414140de5dae2223b00361a396177a9cb410ff61f20015ad".
Proof. vm_compute. reflexivity. Qed.

Example sha256Hex_two_blocks :
  sha256Hex "abcdbcdecdefdefgefghfghighijhijkijkljklmklmnlmnomnopnopq"
  = "248d6a61d20638b8e5c026930c3e6039a33ce45964ff2167f6ecedd419db06c1".
Proof. vm_compute. reflexivity. Qed.

(** ** Request fields *)

Lemma str_truthy_Some (o : option string) :
  str_truthy o = true → ∃ v, o = Some v ∧ v ≠ "".
Proof.
  destruct o as [v|]; simpl; [|discriminate].
  intros Hv. exists v. split; [done|]. intros ->. discriminate.
Qed.

Lemma str_truthy_intro (v : string) : v ≠ "" → str_truthy (Some v) = true.
Proof.
  intros Hv. simpl. destruct (String.eqb_spec v ""); [contradiction|reflexivity].
Qed.

Section SqliteTables.
Context {num : Type} `{JsNumber num}.
Import Sqlite.
Implicit Types (s : state num) (r : proof_row num) (t : tx_row num) (j : job num).

Lemma sq_select_owned_Some zkp wallet s r :
  select_owned zkp wallet s = Some r ↔
  zk_proofs s !! zkp = Some r ∧ wallet_pubkey r = wallet.
Proof.
  unfold select_owned. destruct (zk_proofs s !! zkp) as [r'|]; [|split; [done|intros [? _]; done]].
  destruct (String.eqb_spec (wallet_pubkey r') wallet); split.
  - intros [= ->]. done.
  - intros [[= ->] _]. done.
  - done.
  - intros [[= ->] ?]. done.
Qed.


Lemma sq_generate_inv w a b n c s resp s' :
  generate w a b n c s = (resp, s') →
  (s' = s ∧ ∃ code m, resp = Error code m)
  ∨ (∃ wallet, w = Some wallet ∧ wallet ≠ ""
       ∧ zk_proofs s !! generateZkProofId a b = None
       ∧ resp = Generated (generateZkProofId a b) (generateSecretNote n)
       ∧ s' = {| zk_proofs :=
                   <[generateZkProofId a b :=
                       {| wallet_pubkey := wallet;
                          note_hash := sha256Hex (generateSecretNote n);
                          total := js_zero; spent := js_zero; created_at := c |}]>
                     (zk_proofs s);
                 transactions := transactions s;
                 sqlite_sequence := sqlite_sequence s;
                 poolKeypair := poolKeypair s; jobs := jobs s |}).
Proof.
  unfold generate. intros Hg.
  destruct w as [wallet|]; [|left; inversion Hg; eauto].
  destruct (negb (str_truthy (Some wallet))) eqn:Hw; [left; inversion Hg; eauto|].
  destruct (zk_proofs s !! generateZkProofId a b) eqn:Hl; [left; inversion Hg; eauto|].
  right. exists wallet. inversion Hg; subst. repeat split; auto.
  intros ->. simpl in Hw. discriminate.
Qed.

Lemma sq_deposits_inv w z a sg c s resp s' :
  deposits w z a sg c s = (resp, s') →
  (s' = s ∧ ∃ code m, resp = Error code m)
  ∨ (∃ wallet zkp amt sig r,
       w = Some wallet ∧ z = Some zkp ∧ a = Some amt ∧ sg = Some sig
       ∧ zk_proofs s !! zkp = Some r ∧ wallet_pubkey r = wallet
       ∧ js_gt amt js_zero = true
       ∧ resp = DepositOk ∧ s' = deposit_tx wallet zkp amt sig c s).
Proof.
  unfold deposits. intros Hd.
  destruct w as [wallet|], z as [zkp|], a as [amt|], sg as [sig|];
    try (left; inversion Hd; eauto; fail).
  destruct (_ || _); [left; inversion Hd; eauto|].
  destruct (select_owned zkp wallet s) as [r|] eqn:Hsel;
    [|left; inversion Hd; eauto].
  destruct (js_gt amt js_zero) eqn:Hpos; simpl in Hd; [|left; inversion Hd; eauto].
  apply sq_select_owned_Some in Hsel as [Hl Hw].
  right. exists wallet, zkp, amt, sig, r. inversion Hd; subst. done.
Qed.

Lemma sq_withdrawals_inv z n a rc c s resp s' :
  withdrawals z n a rc c s = (resp, s') →
  (s' = s ∧ ∃ code m, resp = Error code m)
  ∨ (∃ zkp nt amt rcpt r,
       z = Some zkp ∧ n = Some nt ∧ a = Some amt ∧ rc = Some rcpt
       ∧ poolKeypair s = true
       ∧ zk_proofs s !! zkp = Some r ∧ note_hash r = sha256Hex nt
       ∧ js_gt amt js_zero = true
       ∧ js_gt amt (js_add (js_sub (or_zero (total r)) (or_zero (spent r))) js_tol)
         = false
       ∧ resp = WithdrawPending (next_rowid s)
       ∧ s' = start_job {| job_txId := next_rowid s; job_amt := amt;
                           job_zkProofId := zkp; job_recipient := rcpt |}
                (withdraw_tx (wallet_pubkey r) zkp amt rcpt c s)).
Proof.
  unfold withdrawals. intros Hd.
  destruct z as [zkp|], n as [nt|], a as [amt|], rc as [rcpt|];
    try (left; inversion Hd; eauto; fail).
  destruct (_ || _); [left; inversion Hd; eauto|].
  destruct (poolKeypair s) eqn:Hpool; simpl in Hd; [|left; inversion Hd; eauto].
  destruct (zk_proofs s !! zkp) as [r|] eqn:Hl; [|left; inversion Hd; eauto].
  destruct (String.eqb_spec (note_hash r) (sha256Hex nt)) as [Hh|Hh];
    simpl in Hd; [|left; inversion Hd; eauto].
  destruct (js_gt amt js_zero) eqn:Hpos; simpl in Hd; [|left; inversion Hd; eauto].
  destruct (js_gt amt (js_add _ _)) eqn:Hbal; [left; inversion Hd; eauto|].
  right. exists zkp, nt, amt, rcpt, r. inversion Hd; subst. done.
Qed.

Lemma sq_history_state w s : snd (history w s) = s.
Proof. unfold history. destruct w; [destruct (negb _)|]; reflexivity. Qed.

(** *** The tables stay consistent *)

Lemma sq_consistent_init pool : consistent (init (num:=num) pool).
Proof. split; simpl; constructor. Qed.

Lemma sq_lookup_alter_is_Some (f : proof_row num → proof_row num)
    (m : gmap string (proof_row num)) k k' r :
  (∀ x, wallet_pubkey (f x) = wallet_pubkey x) →
  m !! k' = Some r →
  ∃ r', alter f k m !! k' = Some r' ∧ wallet_pubkey r' = wallet_pubkey r.
Proof.
  intros Hf Hl. destruct (decide (k = k')) as [->|Hne].
  - rewrite lookup_alter_eq, Hl. simpl. eauto.
  - rewrite lookup_alter_ne by done. eauto.
Qed.

Lemma sq_rows_owned_alter f (m : gmap string (proof_row num)) k (l : list (tx_row num)) :
  (∀ x, wallet_pubkey (f x) = wallet_pubkey x) →
  Forall (λ t, ∃ r, m !! tx_zk_proof_id t = Some r
                    ∧ wallet_pubkey r = tx_wallet_pubkey t) l →
  Forall (λ t, ∃ r, alter f k m !! tx_zk_proof_id t = Some r
                    ∧ wallet_pubkey r = tx_wallet_pubkey t) l.
Proof.
  intros Hf HF. eapply Forall_impl; [exact HF|]. intros t (r & Hr & Hw).
  destruct (sq_lookup_alter_is_Some f m k _ r Hf Hr) as (r' & Hr' & Hw').
  exists r'. split; [done | congruence].
Qed.


Lemma sq_consistent_generate w a b n c s :
  consistent s → consistent (snd (generate w a b n c s)).
Proof.
  intros Hc. destruct (generate w a b n c s) as [resp s'] eqn:Hg.
  apply sq_generate_inv in Hg as [[-> _]|(wallet & -> & Hw & Hfresh & -> & ->)]; [done|].
  destruct Hc as [Hb Hd Hj Ho]. split; simpl; try done.
  eapply Forall_impl; [exact Ho|]. intros t (r & Hr & Hwal).
  exists r. split; [|done].
  rewrite lookup_insert_ne; [done|]. intros Heq. congruence.
Qed.

Lemma sq_next_rowid_fresh s :
  consistent s → next_rowid s ∉ map tx_id (transactions s).
Proof.
  intros Hc Hin. apply list_elem_of_fmap in Hin as (t & Hid & Ht).
  pose proof (ids_bounded s Hc) as Hb. rewrite Forall_forall in Hb.
  specialize (Hb t Ht). unfold next_rowid in Hid. lia.
Qed.

Lemma sq_consistent_deposit_tx wallet zkp amt sig c s r :
  consistent s → zk_proofs s !! zkp = Some r → wallet_pubkey r = wallet →
  consistent (deposit_tx wallet zkp amt sig c s).
Proof.
  intros Hc Hl Hw. pose proof (sq_next_rowid_fresh s Hc) as Hfresh.
  destruct Hc as [Hb Hd Hj Ho]. split; simpl.
  - apply Forall_app. split.
    + eapply Forall_impl; [exact Hb|]. intros t Ht. simpl in Ht. unfold next_rowid. lia.
    + constructor; [simpl; lia | constructor].
  - rewrite map_app. simpl. apply NoDup_app. split; [done|]. split.
    + intros x Hx Hx'. apply list_elem_of_singleton in Hx'. subst. done.
    + apply NoDup_singleton.
  - eapply Forall_impl; [exact Hj|]. intros j (t & Ht & Hjr).
    exists t. split; [|done]. apply elem_of_app. by left.
  - apply Forall_app. split.
    + apply sq_rows_owned_alter; done.
    + constructor; [|constructor]. simpl.
      destruct (sq_lookup_alter_is_Some (add_total amt) (zk_proofs s) zkp zkp r) as (r' & Hr' & Hw'); try done.
      exists r'. split; [done | congruence].
Qed.


Lemma sq_consistent_withdraw wallet zkp amt rcpt c s r :
  consistent s → zk_proofs s !! zkp = Some r → wallet_pubkey r = wallet →
  consistent (start_job {| job_txId := next_rowid s; job_amt := amt;
                           job_zkProofId := zkp; job_recipient := rcpt |}
                (withdraw_tx wallet zkp amt rcpt c s)).
Proof.
  intros Hc Hl Hw. pose proof (sq_next_rowid_fresh s Hc) as Hfresh.
  destruct Hc as [Hb Hd Hj Ho]. split; simpl.
  - apply Forall_app. split.
    + eapply Forall_impl; [exact Hb|]. intros t Ht. simpl in Ht. unfold next_rowid. lia.
    + constructor; [simpl; lia | constructor].
  - rewrite map_app. simpl. apply NoDup_app. split; [done|]. split.
    + intros x Hx Hx'. apply list_elem_of_singleton in Hx'. subst. done.
    + apply NoDup_singleton.
  - apply Forall_app. split.
    + eapply Forall_impl; [exact Hj|]. intros j (t & Ht & Hjr).
      exists t. split; [|done]. apply elem_of_app. by left.
    + constructor; [|constructor]. eexists. split.
      * apply elem_of_app. right. apply list_elem_of_singleton. reflexivity.
      * repeat split.
  - apply Forall_app. split.
    + apply sq_rows_owned_alter; done.
    + constructor; [|constructor]. simpl.
      destruct (sq_lookup_alter_is_Some (add_spent amt) (zk_proofs s) zkp zkp r) as (r' & Hr' & Hw'); try done.
      exists r'. split; [done | congruence].
Qed.

Lemma sq_set_status_id st sig txId t : tx_id (set_status st sig txId t) = tx_id t.
Proof. unfold set_status. destruct (N.eqb _ _); reflexivity. Qed.

Lemma sq_set_status_other st sig txId t :
  tx_id t ≠ txId → set_status st sig txId t = t.
Proof.
  intros Hne. unfold set_status. destruct (N.eqb_spec (tx_id t) txId); [done|reflexivity].
Qed.

Lemma sq_set_status_owner st sig txId t :
  tx_zk_proof_id (set_status st sig txId t) = tx_zk_proof_id t
  ∧ tx_wallet_pubkey (set_status st sig txId t) = tx_wallet_pubkey t.
Proof. unfold set_status. destruct (N.eqb _ _); done. Qed.

Lemma sq_map_set_status_ids st sig txId (l : list (tx_row num)) :
  map tx_id (map (set_status st sig txId) l) = map tx_id l.
Proof.
  rewrite map_map. apply map_ext. intros t. apply sq_set_status_id.
Qed.

(** A settlement leaves the rows of the jobs still running as they were. *)
Lemma sq_jobs_pending_settled st sig txId (l : list (tx_row num)) (js : list (job num)) :
  Forall (λ j, ∃ t, t ∈ l ∧ job_row j t) js →
  Forall (λ j, ∃ t, t ∈ map (set_status st sig txId) l ∧ job_row j t)
    (List.filter (fun j => negb (is_job txId j)) js).
Proof.
  intros Hj. apply Forall_forall. intros j Hin.
  apply list_elem_of_In, filter_In in Hin as [Hin Hne].
  apply list_elem_of_In in Hin.
  rewrite Forall_forall in Hj. destruct (Hj j Hin) as (t & Ht & Hjr).
  exists t. split; [|done].
  apply list_elem_of_fmap. exists t. split; [|done].
  symmetry. apply sq_set_status_other.
  destruct Hjr as (Hid & _). unfold is_job in Hne.
  destruct (N.eqb_spec (job_txId j) txId); [discriminate | congruence].
Qed.

(** What the end of the job of [txId] does: the row is confirmed, or it
    is marked FAILED and the amount given back, or [tx2] throws and
    nothing is written. *)
Lemma sq_settle_cases txId outcome s j :
  find (is_job txId) (jobs s) = Some j →
  job_txId j = txId
  ∧ match outcome with
    | Some sig => settle txId outcome s = end_job txId (confirm txId sig s)
    | None =>
        if not_null_fails (job_amt j) (job_zkProofId j) s
        then settle txId outcome s = end_job txId s
        else settle txId outcome s
             = end_job txId
                 {| zk_proofs :=
                      alter (sub_spent (job_amt j)) (job_zkProofId j) (zk_proofs s);
                    transactions := map (set_status FAILED None txId) (transactions s);
                    sqlite_sequence := sqlite_sequence s;
                    poolKeypair := poolKeypair s;
                    jobs := jobs s |}
    end.
Proof.
  intros Hf. pose proof Hf as Hf'. apply find_some in Hf' as [_ Hid].
  apply N.eqb_eq in Hid. split; [done|].
  unfold settle. rewrite Hf. unfold settle_job, compensate_tx. rewrite Hid.
  destruct outcome as [sig|]; [done|].
  by destruct (not_null_fails (job_amt j) (job_zkProofId j) s).
Qed.

Lemma sq_jobs_pending_ended txId (l : list (tx_row num)) (js : list (job num)) :
  Forall (λ j, ∃ t, t ∈ l ∧ job_row j t) js →
  Forall (λ j, ∃ t, t ∈ l ∧ job_row j t)
    (List.filter (fun j => negb (is_job txId j)) js).
Proof.
  intros Hj. apply Forall_forall. intros j Hin.
  apply list_elem_of_In, filter_In in Hin as [Hin _].
  apply list_elem_of_In in Hin. rewrite Forall_forall in Hj. by apply Hj.
Qed.

Lemma sq_consistent_settle txId outcome s :
  consistent s → consistent (settle txId outcome s).
Proof.
  intros Hc. destruct (find (is_job txId) (jobs s)) as [j|] eqn:Hf;
    [|unfold settle; by rewrite Hf].
  destruct (sq_settle_cases txId outcome s j Hf) as [Hid Hs].
  destruct Hc as [Hb Hd Hj Ho].
  destruct outcome as [signature|];
    [|destruct (not_null_fails (job_amt j) (job_zkProofId j) s)];
    rewrite Hs; split; simpl; try done.
  - rewrite Forall_fmap. eapply Forall_impl; [exact Hb|].
    intros t Ht. simpl. by rewrite sq_set_status_id.
  - by rewrite sq_map_set_status_ids.
  - by apply sq_jobs_pending_settled.
  - rewrite Forall_fmap. eapply Forall_impl; [exact Ho|].
    intros t Ht. simpl. by destruct (sq_set_status_owner CONFIRMED (Some signature) txId t) as [-> ->].
  - by apply sq_jobs_pending_ended.
  - rewrite Forall_fmap. eapply Forall_impl; [exact Hb|].
    intros t Ht. simpl. by rewrite sq_set_status_id.
  - by rewrite sq_map_set_status_ids.
  - by apply sq_jobs_pending_settled.
  - apply sq_rows_owned_alter; [done|].
    rewrite Forall_fmap. eapply Forall_impl; [exact Ho|].
    intros t Ht. simpl. by destruct (sq_set_status_owner FAILED None txId t) as [-> ->].
Qed.

Lemma sq_consistent_step s e : consistent s → consistent (step s e).
Proof.
  intros Hc. destruct e as [w a b n c|w z a sg c|z n a rc c|w|txId outcome]; simpl.
  - by apply sq_consistent_generate.
  - destruct (deposits w z a sg c s) as [resp s'] eqn:Hd.
    apply sq_deposits_inv in Hd as [[-> _]|(wallet & zkp & amt & sig & r & _ & _ & _ & _ & Hl & Hw & _ & _ & ->)];
      [done|]. simpl. by eapply sq_consistent_deposit_tx.
  - destruct (withdrawals z n a rc c s) as [resp s'] eqn:Hd.
    apply sq_withdrawals_inv in Hd
      as [[-> _]|(zkp & nt & amt & rcpt & r & _ & _ & _ & _ & _ & Hl & _ & _ & _ & _ & ->)];
      [done|]. simpl. by eapply sq_consistent_withdraw.
  - by rewrite sq_history_state.
  - by apply sq_consistent_settle.
Qed.

Lemma sq_consistent_run es s : consistent s → consistent (run s es).
Proof.
  revert s. induction es as [|e es IH]; intros s Hc; simpl; [done|].
  apply IH. by apply sq_consistent_step.
Qed.


End SqliteTables.

Section SqliteStateMachine.
Context {num : Type} `{JsNumber num}.
Import Sqlite.
Implicit Types (s : state num) (r : proof_row num) (t : tx_row num) (j : job num).

Lemma sq_same_id_same_row (l : list (tx_row num)) t t' :
  NoDup (map tx_id l) → t ∈ l → t' ∈ l → tx_id t = tx_id t' → t = t'.
Proof.
  induction l as [|x l IH]; intros Hnd Ht Ht' Hid; [by apply elem_of_nil in Ht|].
  simpl in Hnd. apply NoDup_cons in Hnd as [Hx Hnd].
  apply elem_of_cons in Ht as [->|Ht], Ht' as [->|Ht'].
  - done.
  - exfalso. apply Hx. rewrite Hid. apply list_elem_of_fmap. eauto.
  - exfalso. apply Hx. rewrite <- Hid. apply list_elem_of_fmap. eauto.
  - by apply IH.
Qed.

(** The row of a running job: it is there, it is PENDING, and it is the
    only row with the job's id. *)
Lemma sq_running_job_row s txId j :
  consistent s → find (is_job txId) (jobs s) = Some j →
  job_txId j = txId
  ∧ ∃ t, t ∈ transactions s ∧ job_row j t
         ∧ ∀ t', t' ∈ transactions s → tx_id t' = txId → t' = t.
Proof.
  intros Hc Hf. apply find_some in Hf as [Hin Hid].
  apply N.eqb_eq in Hid. split; [done|].
  pose proof (jobs_pending s Hc) as Hj. rewrite Forall_forall in Hj.
  apply list_elem_of_In in Hin. destruct (Hj j Hin) as (t & Ht & Hjr).
  exists t. split; [done|]. split; [done|].
  intros t' Ht' Hid'. eapply sq_same_id_same_row; eauto using ids_distinct.
  destruct Hjr as (-> & _). congruence.
Qed.





(** The rows after the end of a job: as they were when [tx2] threw, and
    else the row of the job marked. *)
Lemma sq_settle_transactions txId outcome s j :
  find (is_job txId) (jobs s) = Some j →
  (outcome = None ∧ not_null_fails (job_amt j) (job_zkProofId j) s = true
   ∧ transactions (settle txId outcome s) = transactions s)
  ∨ ((outcome = None → not_null_fails (job_amt j) (job_zkProofId j) s = false)
     ∧ transactions (settle txId outcome s)
       = map (set_status match outcome with Some _ => CONFIRMED | None => FAILED end
                outcome txId)
           (transactions s)).
Proof.
  intros Hf. destruct (sq_settle_cases txId outcome s j Hf) as [Hid Hs].
  destruct outcome as [sig|].
  - right. split; [done|]. by rewrite Hs.
  - destruct (not_null_fails (job_amt j) (job_zkProofId j) s) eqn:Hnull.
    + left. by rewrite Hs.
    + right. split; [done|]. by rewrite Hs.
Qed.

Lemma sq_settle_idle txId outcome s :
  find (is_job txId) (jobs s) = None → settle txId outcome s = s.
Proof. intros Hf. unfold settle. by rewrite Hf. Qed.

(** The end of a job writes to [zk_proofs] only when it gives an amount
    back. *)
Lemma sq_settle_entries txId outcome s :
  zk_proofs (settle txId outcome s) = zk_proofs s
  ∨ ∃ j, find (is_job txId) (jobs s) = Some j ∧ outcome = None
         ∧ zk_proofs (settle txId outcome s)
           = alter (sub_spent (job_amt j)) (job_zkProofId j) (zk_proofs s).
Proof.
  destruct (find (is_job txId) (jobs s)) as [j|] eqn:Hf;
    [|left; by rewrite sq_settle_idle].
  destruct (sq_settle_cases txId outcome s j Hf) as [_ Hs].
  destruct outcome as [sig|]; [left; by rewrite Hs|].
  destruct (not_null_fails (job_amt j) (job_zkProofId j) s);
    [left; by rewrite Hs|].
  right. exists j. by rewrite Hs.
Qed.

Lemma sq_settle_rest txId outcome s :
  sqlite_sequence (settle txId outcome s) = sqlite_sequence s
  ∧ poolKeypair (settle txId outcome s) = poolKeypair s
  ∧ jobs (settle txId outcome s)
    = match find (is_job txId) (jobs s) with
      | Some _ => List.filter (fun j => negb (is_job txId j)) (jobs s)
      | None => jobs s
      end.
Proof.
  destruct (find (is_job txId) (jobs s)) as [j|] eqn:Hf;
    [|by rewrite sq_settle_idle].
  destruct (sq_settle_cases txId outcome s j Hf) as [_ Hs].
  destruct outcome as [sig|];
    [|destruct (not_null_fails (job_amt j) (job_zkProofId j) s)];
    by rewrite Hs.
Qed.









(** A withdrawal that is accepted adds one row, PENDING and without a
    settlement reference, under the id it answers. *)
Lemma sq_withdrawal_starts_pending z n a rc c s txId :
  fst (withdrawals z n a rc c s) = WithdrawPending txId →
  ∃ t, transactions (snd (withdrawals z n a rc c s)) = (transactions s ++ [t])%list
       ∧ tx_id t = txId ∧ tx_type t = WITHDRAW ∧ tx_status t = PENDING
       ∧ tx_signature t = None.
Proof.
  destruct (withdrawals z n a rc c s) as [resp s'] eqn:Hd. simpl. intros ->.
  apply sq_withdrawals_inv in Hd
    as [[_ (? & ? & [=])]|(zkp & nt & amt & rcpt & r & _ & _ & _ & _ & _ & _ & _ & _ & _ & [= ->] & ->)].
  eexists. split; [reflexivity|]. done.
Qed.

(** *** Settlement failure *)


(** The reservation a running job would undo, and whether [tx2] can
    write the result. *)
Lemma sq_job_reservation s txId j :
  consistent s → find (is_job txId) (jobs s) = Some j →
  ∃ t r,
    t ∈ transactions s ∧ job_row j t ∧ tx_id t = txId
    ∧ (∀ t', t' ∈ transactions s → tx_id t' = txId → t' = t)
    ∧ zk_proofs s !! tx_zk_proof_id t = Some r
    ∧ not_null_fails (job_amt j) (job_zkProofId j) s
      = is_NaN (js_sub (spent r) (tx_amount t)).
Proof.
  intros Hc Hf.
  destruct (sq_running_job_row s txId j Hc Hf) as (Hid & t & Ht & Hjr & Huniq).
  pose proof Hjr as (Htid & Hp & Hty & Hamt & Hzkp & Hrc).
  pose proof (rows_owned s Hc) as Ho. rewrite Forall_forall in Ho.
  destruct (Ho t Ht) as (r & Hr & _).
  exists t, r. repeat split; try done; [congruence|].
  unfold not_null_fails. by rewrite <- Hzkp, Hr, Hamt.
Qed.

Lemma sq_settle_failure s txId j :
  consistent s → find (is_job txId) (jobs s) = Some j →
  ∃ t r,
    (* the reservation being undone *)
    t ∈ transactions s ∧ tx_id t = txId ∧ tx_type t = WITHDRAW
    ∧ tx_status t = PENDING ∧ zk_proofs s !! tx_zk_proof_id t = Some r
    ∧ (is_NaN (js_sub (spent r) (tx_amount t)) = false →
       (* the row ends FAILED *)
       (∃ t', t' ∈ transactions (settle txId None s) ∧ tx_id t' = txId)
       ∧ (∀ t', t' ∈ transactions (settle txId None s) → tx_id t' = txId →
                tx_status t' = FAILED ∧ tx_signature t' = tx_signature t
                ∧ same_request t t')
       (* the entry gets the amount of the row back, in the same step *)
       ∧ zk_proofs (settle txId None s)
         = <[tx_zk_proof_id t := sub_spent (tx_amount t) r]> (zk_proofs s))
    ∧ (is_NaN (js_sub (spent r) (tx_amount t)) = true →
       (* [tx2] throws: nothing is written *)
       settle txId None s = end_job txId s).
Proof.
  intros Hc Hf.
  destruct (sq_job_reservation s txId j Hc Hf)
    as (t & r & Ht & Hjr & Hteq & Huniq & Hr & Hnull).
  destruct Hjr as (Htid & Hp & Hty & Hamt & Hzkp & Hrc).
  destruct (sq_settle_cases txId None s j Hf) as [_ Hs].
  exists t, r.
  split; [done|]. split; [done|]. split; [done|]. split; [done|].
  split; [done|]. rewrite Hnull in Hs. split.
  - intros Hnan. rewrite Hnan in Hs. rewrite Hs. simpl. split; [|split].
    + exists (set_status FAILED None txId t). split.
      * apply list_elem_of_fmap. eauto.
      * by rewrite sq_set_status_id.
    + intros t' Ht' Hid'. apply list_elem_of_fmap in Ht' as (t0 & -> & Ht0).
      rewrite sq_set_status_id in Hid'. rewrite (Huniq t0 Ht0 Hid').
      unfold set_status. rewrite Hteq, N.eqb_refl. simpl. split; [done|].
      split; [done|]. unfold same_request; simpl. repeat split; congruence.
    + rewrite <- Hamt, <- Hzkp.
      apply map_eq. intros k. destruct (decide (tx_zk_proof_id t = k)) as [<-|Hne].
      * by rewrite lookup_alter_eq, lookup_insert_eq, Hr.
      * by rewrite lookup_alter_ne, lookup_insert_ne.
  - intros Hnan. by rewrite Hnan in Hs.
Qed.



End SqliteStateMachine.

Section PgTables.
Context {num numeric : Type} `{JsNumber num} `{PgNumeric num numeric}.
Import Pg.
Implicit Types (s : state numeric) (r : proof_row numeric) (t : transfer_row numeric).

Lemma pg_generate_inv w n c s resp s' :
  generate (num:=num) w n c s = (resp, s') →
  (s' = s ∧ ∃ code m, resp = Error code m)
  ∨ (∃ wallet, w = Some wallet ∧ wallet ≠ ""
       ∧ resp = Generated (zkProofId_for wallet n) (hex_of_bytes false n)
       ∧ ((is_Some (zk_proofs s !! zkProofId_for wallet n) ∧ s' = s)
          ∨ (zk_proofs s !! zkProofId_for wallet n = None
             ∧ s' = {| zk_proofs :=
                         <[zkProofId_for wallet n :=
                             {| wallet_pubkey := wallet;
                                note_hash := sha256Hex (hex_of_bytes false n);
                                total_amount := pg_zero; spent_amount := pg_zero;
                                created_at := c |}]> (zk_proofs s);
                       zk_transfers := zk_transfers s |}))).
Proof.
  unfold generate. intros Hg.
  destruct w as [wallet|]; [|left; inversion Hg; eauto].
  destruct (negb (str_truthy (Some wallet))) eqn:Hw; [left; inversion Hg; eauto|].
  right. exists wallet. split; [done|]. split.
  { intros ->. simpl in Hw. discriminate. }
  change (commitment wallet _) with (zkProofId_for wallet n) in Hg.
  inversion Hg; subst. split; [done|].
  destruct (zk_proofs s !! zkProofId_for wallet n) eqn:Hl; [left|right]; eauto.
Qed.

Lemma pg_deposits_inv w z a sg c s resp s' :
  deposits w z a sg c s = (resp, s') →
  (s' = s ∧ ∃ code m, resp = Error code m)
  ∨ (∃ wallet zkp amt r total' stored,
       w = Some wallet ∧ z = Some zkp ∧ a = Some amt
       ∧ zk_proofs s !! zkp = Some r ∧ wallet_pubkey r = wallet
       ∧ js_truthy amt = true ∧ js_le amt js_zero = false
       ∧ pg_add_store (total_amount r) amt = Some total'
       ∧ pg_store amt = Some stored
       ∧ resp = ok_response zkp (with_total total' r)
       ∧ s' = {| zk_proofs := <[zkp := with_total total' r]> (zk_proofs s);
                 zk_transfers :=
                   (zk_transfers s ++
                     [ {| tr_zk_proof_id := zkp; tr_wallet_pubkey := wallet;
                          tr_direction := DEPOSIT; tr_amount := stored;
                          tr_recipient := None;
                          tr_tx_signature := or_null sg;
                          tr_created_at := c |} ])%list |}).
Proof.
  unfold deposits. intros Hd.
  destruct w as [wallet|], z as [zkp|], a as [amt|];
    try (left; inversion Hd; eauto; fail).
  destruct (js_truthy amt) eqn:Ht, (js_le amt js_zero) eqn:Hle;
    rewrite ?orb_true_r, ?orb_false_r in Hd; simpl in Hd;
    try (left; inversion Hd; eauto; fail).
  destruct (_ || _); [left; inversion Hd; eauto|].
  destruct (zk_proofs s !! zkp) as [r|] eqn:Hl; [|left; inversion Hd; eauto].
  destruct (String.eqb_spec (wallet_pubkey r) wallet) as [Hw|Hw];
    simpl in Hd; [|left; inversion Hd; eauto].
  destruct (pg_add_store (total_amount r) amt) as [total'|] eqn:Hadd;
    [|left; inversion Hd; eauto].
  destruct (pg_store amt) as [stored|] eqn:Hst; [|left; inversion Hd; eauto].
  right. exists wallet, zkp, amt, r, total', stored. inversion Hd; subst. done.
Qed.

Lemma pg_withdrawals_inv z n a rc sg c s resp s' :
  withdrawals z n a rc sg c s = (resp, s') →
  (s' = s ∧ ∃ code m, resp = Error code m)
  ∨ (∃ zkp nt amt rcpt r spent' stored,
       z = Some zkp ∧ n = Some nt ∧ a = Some amt ∧ rc = Some rcpt
       ∧ zk_proofs s !! zkp = Some r ∧ note_hash r = sha256Hex nt
       ∧ js_truthy amt = true ∧ js_le amt js_zero = false
       ∧ js_lt (js_sub (toNumber (Some (total_amount r)))
                       (toNumber (Some (spent_amount r)))) amt = false
       ∧ pg_add_store (spent_amount r) amt = Some spent'
       ∧ pg_store amt = Some stored
       ∧ resp = ok_response zkp (with_spent spent' r)
       ∧ s' = {| zk_proofs := <[zkp := with_spent spent' r]> (zk_proofs s);
                 zk_transfers :=
                   (zk_transfers s ++
                     [ {| tr_zk_proof_id := zkp;
                          tr_wallet_pubkey := wallet_pubkey r;
                          tr_direction := WITHDRAW; tr_amount := stored;
                          tr_recipient := Some rcpt;
                          tr_tx_signature := or_null sg;
                          tr_created_at := c |} ])%list |}).
Proof.
  unfold withdrawals. intros Hd.
  destruct z as [zkp|], n as [nt|], rc as [rcpt|], a as [amt|];
    try (left; inversion Hd; eauto; fail).
  destruct (js_truthy amt) eqn:Ht, (js_le amt js_zero) eqn:Hle;
    rewrite ?orb_true_r, ?orb_false_r in Hd; simpl in Hd;
    try (left; inversion Hd; eauto; fail).
  destruct (_ || _); [left; inversion Hd; eauto|].
  destruct (zk_proofs s !! zkp) as [r|] eqn:Hl; [|left; inversion Hd; eauto].
  destruct (String.eqb_spec (note_hash r) (sha256Hex nt)) as [Hh|Hh];
    simpl in Hd; [|left; inversion Hd; eauto].
  destruct (js_lt _ amt) eqn:Hbal; [left; inversion Hd; eauto|].
  destruct (pg_add_store (spent_amount r) amt) as [spent'|] eqn:Hadd;
    [|left; inversion Hd; eauto].
  destruct (pg_store amt) as [stored|] eqn:Hst; [|left; inversion Hd; eauto].
  right. exists zkp, nt, amt, rcpt, r, spent', stored. inversion Hd; subst. done.
Qed.

Lemma pg_history_state w s : snd (history (num:=num) w s) = s.
Proof. unfold history. destruct w; [destruct (negb _)|]; reflexivity. Qed.


(** *** The tables stay consistent *)





End PgTables.

Section SqliteSettlementSuccess.
Context {num : Type} `{JsNumber num}.
Import Sqlite.
Implicit Types (s : state num) (r : proof_row num) (t : tx_row num) (j : job num).

Lemma sq_settle_success s txId sig j :
  consistent s → find (is_job txId) (jobs s) = Some j →
  ∃ t,
    t ∈ transactions s ∧ tx_id t = txId ∧ tx_type t = WITHDRAW
    ∧ tx_status t = PENDING
    ∧ (∃ t', t' ∈ transactions (settle txId (Some sig) s) ∧ tx_id t' = txId)
    ∧ (∀ t', t' ∈ transactions (settle txId (Some sig) s) → tx_id t' = txId →
             tx_status t' = CONFIRMED ∧ tx_signature t' = Some sig
             ∧ same_request t t')
    ∧ zk_proofs (settle txId (Some sig) s) = zk_proofs s.
Proof.
  intros Hc Hf.
  destruct (sq_running_job_row s txId j Hc Hf) as (Hid & t & Ht & Hjr & Huniq).
  destruct Hjr as (Htid & Hp & Hty & Hamt & Hzkp & Hrc).
  assert (tx_id t = txId) as Hteq by congruence.
  exists t.
  split; [done|]. split; [done|]. split; [done|]. split; [done|].
  destruct (sq_settle_cases txId (Some sig) s j Hf) as [_ ->]. simpl.
  split; [|split].
  - exists (set_status CONFIRMED (Some sig) txId t). split.
    + apply list_elem_of_fmap. eauto.
    + by rewrite sq_set_status_id.
  - intros t' Ht' Hid'. apply list_elem_of_fmap in Ht' as (t0 & -> & Ht0).
    rewrite sq_set_status_id in Hid'. rewrite (Huniq t0 Ht0 Hid').
    unfold set_status. rewrite Hteq, N.eqb_refl. simpl. split; [done|].
    split; [done|]. unfold same_request; simpl. repeat split; congruence.
  - done.
Qed.
End SqliteSettlementSuccess.


(** * Part III: the claims *)

Import Float64 PgFloat.

(** ** C1: withdrawn against deposited *)

(** The SQLite server lets a withdrawal pass that exceeds the balance by
    no more than 1e-9: after a deposit of 1 and a withdrawal of
    1.0000000005 the entry holds [spent > total]. *)
Example sq_tolerance_lets_spent_exceed_total :
  (λ r, (Sqlite.total r, Sqlite.spent r, PrimFloat.ltb (Sqlite.total r) (Sqlite.spent r)))
    <$> Sqlite.zk_proofs
          (Sqlite.step Scenario.sq_funded
             (Sqlite.Withdraw (Some Scenario.zkp) (Some Scenario.note)
                (Some 1.0000000005%float) (Some Scenario.recipient) 3000))
        !! Scenario.zkp
  = Some (1%float, 1.0000000005%float, true).
Proof. vm_compute. reflexivity. Qed.

(** C1 on the PostgreSQL server, at the failing input.  After deposits of
    2^53 and of 3 the entry holds [total_amount] = 9007199254740995 and
    [spent_amount] = 0.  The handler of POST /api/withdrawals reads both
    columns through [toNumber], that is [parseFloat], which gives the
    double 9007199254740996 for the total, and compares doubles.  A
    withdrawal of 9007199254740996 is therefore not above the balance the
    handler sees: it is answered [{ ok: true, balance: 0, ... }], the
    transaction commits, and the entry holds
    [spent_amount] = 9007199254740996 above [total_amount] =
    9007199254740995 (in whole numbers of 10^-9 below). *)
Theorem C1_pg_withdrawn_exceeds_deposited :
  let request :=
    Pg.Withdraw (Some Scenario.pg_zkp) (Some Scenario.note)
      (Some 9007199254740996%float) (Some Scenario.recipient) None 4000 in
  (λ r, (Pg.total_amount r, Pg.spent_amount r))
    <$> Pg.zk_proofs Scenario.pg_large !! Scenario.pg_zkp
  = Some (PgFloat.Nanos 9007199254740995000000000, PgFloat.Nanos 0)
  ∧ pg_answer Scenario.pg_large request
    = Pg.Ok Scenario.pg_zkp 0%float 9007199254740996%float 9007199254740996%float
  ∧ (λ r, (Pg.total_amount r, Pg.spent_amount r))
      <$> Pg.zk_proofs (Pg.step Scenario.pg_large request) !! Scenario.pg_zkp
    = Some (PgFloat.Nanos 9007199254740995000000000,
            PgFloat.Nanos 9007199254740996000000000)
  ∧ (λ r, match Pg.total_amount r, Pg.spent_amount r with
          | PgFloat.Nanos total, PgFloat.Nanos spent => (total <? spent)%Z
          | _, _ => false
          end)
      <$> Pg.zk_proofs (Pg.step Scenario.pg_large request) !! Scenario.pg_zkp
    = Some true.
Proof. repeat split; vm_compute; reflexivity. Qed.

(** ** C2: a withdrawal above the balance *)

Section InsufficientBalance.
Context {num numeric : Type} `{JsNumber num} `{PgNumeric num numeric}.

Lemma sq_withdrawal_insufficient (s : Sqlite.state num) zkp nt amt rcpt c r :
  zkp ≠ "" → nt ≠ "" → rcpt ≠ "" →
  Sqlite.poolKeypair s = true →
  Sqlite.zk_proofs s !! zkp = Some r → Sqlite.note_hash r = sha256Hex nt →
  js_gt amt js_zero = true →
  js_gt amt (js_add (js_sub (or_zero (Sqlite.total r)) (or_zero (Sqlite.spent r)))
               js_tol) = true →
  Sqlite.withdrawals (Some zkp) (Some nt) (Some amt) (Some rcpt) c s
  = (Sqlite.Error 400 "Insufficient shielded balance", s).
Proof.
  intros Hz Hn Hrc Hpool Hr Hh Hpos Hbal. unfold Sqlite.withdrawals.
  rewrite !str_truthy_intro by done. simpl. rewrite Hpool, Hr. simpl.
  rewrite Hh, String.eqb_refl, Hpos. simpl. by rewrite Hbal.
Qed.

Lemma pg_withdrawal_insufficient (s : Pg.state numeric) zkp nt (amt : num) rcpt sg c r :
  zkp ≠ "" → nt ≠ "" → rcpt ≠ "" → js_truthy amt = true → js_le amt js_zero = false →
  Pg.zk_proofs s !! zkp = Some r → Pg.note_hash r = sha256Hex nt →
  js_lt (js_sub (Pg.toNumber (Some (Pg.total_amount r)))
                (Pg.toNumber (Some (Pg.spent_amount r)))) amt = true →
  Pg.withdrawals (Some zkp) (Some nt) (Some amt) (Some rcpt) sg c s
  = (Pg.Error 400 "insufficient balance", s).
Proof.
  intros Hz Hn Hrc Ht Hpos Hr Hh Hbal. unfold Pg.withdrawals.
  rewrite !str_truthy_intro by done. simpl. rewrite Ht, Hpos, Hr. simpl.
  rewrite Hh, String.eqb_refl. simpl in *. by rewrite Hbal.
Qed.
End InsufficientBalance.

(** The SQLite server, with deposited 1 and withdrawn 0: a withdrawal of
    1.0000000005 exceeds the balance and is answered PENDING; the
    reservation is made. *)
Example sq_tolerance_accepts_over_balance :
  PrimFloat.ltb (1 - 0) 1.0000000005 = true
  ∧ (let '(resp, s') :=
       Sqlite.withdrawals (Some Scenario.zkp) (Some Scenario.note)
         (Some 1.0000000005%float) (Some Scenario.recipient) 3000 Scenario.sq_funded in
     (resp, Sqlite.spent <$> Sqlite.zk_proofs s' !! Scenario.zkp,
      length (Sqlite.transactions s') - length (Sqlite.transactions Scenario.sq_funded)))
    = (Sqlite.WithdrawPending 2, Some 1.0000000005%float, 1).
Proof. split; vm_compute; reflexivity. Qed.

(** C2 on the PostgreSQL server, at the failing input.  The entry holds
    deposited 9007199254740995 and withdrawn 0; the request asks for
    9007199254740996, which PostgreSQL reads as that very number, one
    above deposited - withdrawn.  The handler compares the amount with
    [toNumber(total) - toNumber(spent)] on doubles, and [parseFloat] has
    rounded the total up to 9007199254740996: [available < amt] does not
    hold.  The request is answered 200, not "insufficient balance";
    [spent_amount] is raised by the amount and one row is appended to
    [zk_transfers]. *)
Theorem C2_pg_accepts_over_balance :
  let amt := 9007199254740996%float in
  (λ r, (Pg.total_amount r, Pg.spent_amount r))
    <$> Pg.zk_proofs Scenario.pg_large !! Scenario.pg_zkp
  = Some (PgFloat.Nanos 9007199254740995000000000, PgFloat.Nanos 0)
  ∧ pg_store amt = Some (PgFloat.Nanos 9007199254740996000000000)
  ∧ (let '(resp, s') :=
       Pg.withdrawals (Some Scenario.pg_zkp) (Some Scenario.note) (Some amt)
         (Some Scenario.recipient) None 4000 Scenario.pg_large in
     (resp, Pg.spent_amount <$> Pg.zk_proofs s' !! Scenario.pg_zkp,
      map Pg.tr_amount (drop (length (Pg.zk_transfers Scenario.pg_large))
                          (Pg.zk_transfers s'))))
    = (Pg.Ok Scenario.pg_zkp 0%float 9007199254740996%float 9007199254740996%float,
       Some (PgFloat.Nanos 9007199254740996000000000),
       [PgFloat.Nanos 9007199254740996000000000]).
Proof. repeat split; vm_compute; reflexivity. Qed.

(** ** C3: a withdrawal with the wrong note *)

Section WrongNote.
Context {num numeric : Type} `{JsNumber num} `{PgNumeric num numeric}.

(** Whatever else the request carries, a note that does not hash to the
    stored [note_hash] (or no note) is answered with an error and changes
    nothing. *)
Lemma sq_wrong_note_refused (s : Sqlite.state num) zkp n a rc c r :
  Sqlite.zk_proofs s !! zkp = Some r →
  (∀ nt, n = Some nt → sha256Hex nt ≠ Sqlite.note_hash r) →
  ∃ code m, Sqlite.withdrawals (Some zkp) n a rc c s = (Sqlite.Error code m, s).
Proof.
  intros Hr Hn. destruct (Sqlite.withdrawals (Some zkp) n a rc c s) as [resp s'] eqn:Hw.
  apply sq_withdrawals_inv in Hw
    as [[-> (code & m & ->)]|(? & nt & ? & ? & r' & [= <-] & -> & _ & _ & _ & Hr' & Hh & _)].
  - eauto.
  - exfalso. apply (Hn nt); [done|]. congruence.
Qed.

Lemma pg_wrong_note_refused (s : Pg.state numeric) zkp n (a : option num) rc sg c r :
  Pg.zk_proofs s !! zkp = Some r →
  (∀ nt, n = Some nt → sha256Hex nt ≠ Pg.note_hash r) →
  ∃ code m, Pg.withdrawals (Some zkp) n a rc sg c s = (Pg.Error code m, s).
Proof.
  intros Hr Hn. destruct (Pg.withdrawals (Some zkp) n a rc sg c s) as [resp s'] eqn:Hw.
  apply pg_withdrawals_inv in Hw
    as [[-> (code & m & ->)]|(? & nt & ? & ? & r' & ? & ? & [= <-] & -> & _ & _ & Hr' & Hh & _)].
  - eauto.
  - exfalso. apply (Hn nt); [done|]. congruence.
Qed.

Lemma sq_wrong_note_403 (s : Sqlite.state num) zkp nt amt rcpt c r :
  zkp ≠ "" → nt ≠ "" → rcpt ≠ "" →
  Sqlite.poolKeypair s = true →
  Sqlite.zk_proofs s !! zkp = Some r → sha256Hex nt ≠ Sqlite.note_hash r →
  Sqlite.withdrawals (Some zkp) (Some nt) (Some amt) (Some rcpt) c s
  = (Sqlite.Error 403 "Invalid secret_note for this zk_proof_id", s).
Proof.
  intros Hz Hn Hrc Hpool Hr Hh. unfold Sqlite.withdrawals.
  rewrite !str_truthy_intro by done. simpl. rewrite Hpool, Hr. simpl.
  destruct (String.eqb_spec (Sqlite.note_hash r) (sha256Hex nt)); [congruence|done].
Qed.

Lemma pg_wrong_note_400 (s : Pg.state numeric) zkp nt (amt : num) rcpt sg c r :
  zkp ≠ "" → nt ≠ "" → rcpt ≠ "" → js_truthy amt = true → js_le amt js_zero = false →
  Pg.zk_proofs s !! zkp = Some r → sha256Hex nt ≠ Pg.note_hash r →
  Pg.withdrawals (Some zkp) (Some nt) (Some amt) (Some rcpt) sg c s
  = (Pg.Error 400 "invalid note for this zk_proof_id", s).
Proof.
  intros Hz Hn Hrc Ht Hpos Hr Hh. unfold Pg.withdrawals.
  rewrite !str_truthy_intro by done. simpl. rewrite Ht, Hpos, Hr. simpl.
  destruct (String.eqb_spec (Pg.note_hash r) (sha256Hex nt)); [congruence|done].
Qed.
End WrongNote.

(** C3, as stated, fails on both servers: the note is looked at after
    other checks, and a request with a wrong note that fails one of them
    gets the error of that check, not the authorization error.  With the
    wrong note "00ff": the PostgreSQL server answers an amount of 0 with
    the validation error 400, and the SQLite server started without pool
    key answers 500.  (The state is unchanged in both cases.) *)
Lemma C3_counterexample :
  String.eqb (sha256Hex "00ff") (sha256Hex Scenario.note) = false
  ∧ Pg.note_hash <$> Pg.zk_proofs Scenario.pg_funded !! Scenario.pg_zkp
    = Some (sha256Hex Scenario.note)
  ∧ Pg.withdrawals (Some Scenario.pg_zkp) (Some "00ff") (Some 0%float)
      (Some Scenario.recipient) None 3000 Scenario.pg_funded
    = (Pg.Error 400 "zkProofId, note, recipient and positive amount are required",
       Scenario.pg_funded)
  ∧ Sqlite.note_hash <$> Sqlite.zk_proofs Scenario.sq_no_key !! Scenario.zkp
    = Some (sha256Hex Scenario.note)
  ∧ Sqlite.withdrawals (Some Scenario.zkp) (Some "00ff") (Some 0.5%float)
      (Some Scenario.recipient) 3000 Scenario.sq_no_key
    = (Sqlite.Error 500 "Withdrawals are not configured on this server.",
       Scenario.sq_no_key).
Proof. repeat split; vm_compute; reflexivity. Qed.

(** C3, amended: on both servers a withdrawal request whose note does not
    hash (SHA-256, hex) to the [note_hash] stored for the identifier it
    names is answered with an error and leaves the whole state, so the
    accumulators and the transaction log, as it was.  When the request
    passes the checks that come before the note (PostgreSQL server:
    identifier, note and recipient non-empty and the amount a number that
    is neither falsy nor [<= 0]; SQLite server: identifier, note, amount
    and recipient truthy and the pool key configured) the error is the
    authorization error of the server: 403 "Invalid secret_note for this
    zk_proof_id" on the SQLite server, whatever number the amount converts
    to, and 400 "invalid note for this zk_proof_id" on the PostgreSQL
    server. *)
Theorem C3_wrong_note_rejected :
  (∀ (num : Type) (N : JsNumber num) (s : Sqlite.state num) zkp nt amount recipient c r,
      Sqlite.zk_proofs s !! zkp = Some r → sha256Hex nt ≠ Sqlite.note_hash r →
      (∃ code m, Sqlite.withdrawals (Some zkp) (Some nt) amount recipient c s
                 = (Sqlite.Error code m, s))
      ∧ ∀ amt rcpt,
          amount = Some amt → recipient = Some rcpt →
          zkp ≠ "" → nt ≠ "" → rcpt ≠ "" →
          Sqlite.poolKeypair s = true →
          Sqlite.withdrawals (Some zkp) (Some nt) amount recipient c s
          = (Sqlite.Error 403 "Invalid secret_note for this zk_proof_id", s))
  ∧ (∀ (num numeric : Type) (N : JsNumber num) (P : PgNumeric num numeric)
       (s : Pg.state numeric) zkp nt (amount : option num) recipient sg c r,
      Pg.zk_proofs s !! zkp = Some r → sha256Hex nt ≠ Pg.note_hash r →
      (∃ code m, Pg.withdrawals (Some zkp) (Some nt) amount recipient sg c s
                 = (Pg.Error code m, s))
      ∧ ∀ amt rcpt,
          amount = Some amt → recipient = Some rcpt →
          zkp ≠ "" → nt ≠ "" → rcpt ≠ "" →
          js_truthy amt = true → js_le amt js_zero = false →
          Pg.withdrawals (Some zkp) (Some nt) amount recipient sg c s
          = (Pg.Error 400 "invalid note for this zk_proof_id", s)).
Proof.
  split.
  - intros num N s zkp nt amount recipient c r Hr Hh. split.
    + eapply sq_wrong_note_refused; [done|]. by intros ? [= <-].
    + intros amt rcpt -> -> ? ? ? ?. by eapply sq_wrong_note_403.
  - intros num numeric N P s zkp nt amount recipient sg c r Hr Hh. split.
    + eapply pg_wrong_note_refused; [done|]. by intros ? [= <-].
    + intros amt rcpt -> -> ? ? ? ? ?. by eapply pg_wrong_note_400.
Qed.

Lemma C3_witness :
  Sqlite.withdrawals (Some Scenario.zkp) (Some "00ff") (Some 0.5%float)
    (Some Scenario.recipient) 3000 Scenario.sq_funded
  = (Sqlite.Error 403 "Invalid secret_note for this zk_proof_id", Scenario.sq_funded)
  ∧ Pg.withdrawals (Some Scenario.pg_zkp) (Some "00ff") (Some 1%float)
      (Some Scenario.recipient) None 3000 Scenario.pg_funded
    = (Pg.Error 400 "invalid note for this zk_proof_id", Scenario.pg_funded).
Proof.
  split.
  - eapply (proj1 C3_wrong_note_rejected);
      try (vm_compute; reflexivity); vm_compute; discriminate.
  - eapply (proj2 C3_wrong_note_rejected);
      try (vm_compute; reflexivity); vm_compute; discriminate.
Defined.

(** ** C4: a settlement that fails *)

Section Orphans.
Context {num : Type} `{JsNumber num}.
Import Sqlite.
Implicit Types (s : state num) (t : tx_row num) (j : job num).





End Orphans.




Section Lifecycle.
Context {num : Type} `{JsNumber num}.
Import Sqlite.
Implicit Types (s : state num) (t : tx_row num) (j : job num).


End Lifecycle.

(** ** C7: the life of a withdrawal row *)




(** ** C5: a deposit that is accepted *)

Section DepositAccepted.
Context {num numeric : Type} `{JsNumber num} `{PgNumeric num numeric}.

Lemma sq_deposit_accepted (s : Sqlite.state num) wallet zkp amt sig c r :
  wallet ≠ "" → zkp ≠ "" → sig ≠ "" →
  Sqlite.zk_proofs s !! zkp = Some r → Sqlite.wallet_pubkey r = wallet →
  js_gt amt js_zero = true →
  Sqlite.deposits (Some wallet) (Some zkp) (Some amt) (Some sig) c s
  = (Sqlite.DepositOk, Sqlite.deposit_tx wallet zkp amt sig c s).
Proof.
  intros Hw Hz Hsig Hr Hown Hpos. unfold Sqlite.deposits.
  rewrite !str_truthy_intro by done. simpl.
  assert (Sqlite.select_owned zkp wallet s = Some r) as ->
    by (by apply sq_select_owned_Some).
  by rewrite Hpos.
Qed.


End DepositAccepted.




(** ** C6: an identifier that already exists *)

Section Collision.
Context {num numeric : Type} `{JsNumber num} `{PgNumeric num numeric}.

(** SQLite server: the request is refused and the entry stays. *)
Lemma sq_generate_collision (s : Sqlite.state num) wallet a b n c :
  wallet ≠ "" → is_Some (Sqlite.zk_proofs s !! Sqlite.generateZkProofId a b) →
  Sqlite.generate (Some wallet) a b n c s
  = (Sqlite.Error 500 "ID collision, retry request", s).
Proof.
  intros Hw [r Hr]. unfold Sqlite.generate.
  rewrite str_truthy_intro by done. simpl. by rewrite Hr.
Qed.

(** PostgreSQL server: ON CONFLICT DO NOTHING keeps the entry, and the
    handler answers as if it had inserted. *)
Lemma pg_generate_collision (s : Pg.state numeric) wallet n c :
  wallet ≠ "" → is_Some (Pg.zk_proofs s !! Pg.zkProofId_for wallet n) →
  Pg.generate (num:=num) (Some wallet) n c s
  = (Pg.Generated (Pg.zkProofId_for wallet n) (hex_of_bytes false n), s).
Proof.
  intros Hw [r Hr]. unfold Pg.generate.
  rewrite str_truthy_intro by done. simpl.
  change (Pg.commitment wallet _) with (Pg.zkProofId_for wallet n). by rewrite Hr.
Qed.
End Collision.

(** C6 on the PostgreSQL server, at the failing input: the identifier
    derived for a second request (same wallet, same 32 random bytes) is
    the one already stored.  The stored entry is kept (its [created_at] is
    still that of the first request), yet the answer is the success
    [{ zkProofId, note }], not an error. *)
Theorem C6_pg_collision_answers_success :
  let s1 := Pg.step (num:=float) Pg.init
              (Pg.Generate (Some Scenario.walletA) Scenario.noteBytes 1000) in
  Pg.created_at <$> Pg.zk_proofs s1 !! Scenario.pg_zkp = Some 1000%Z
  ∧ Pg.generate (num:=float) (Some Scenario.walletA) Scenario.noteBytes 2000 s1
    = (Pg.Generated Scenario.pg_zkp Scenario.note, s1).
Proof. split; vm_compute; reflexivity. Qed.

(** ** C8: the history of a wallet *)

Section HistoryOrder.
Context {num numeric : Type} `{JsNumber num} `{PgNumeric num numeric}.

#[local] Instance sq_newer_trans : Transitive (Sqlite.newer (num:=num)).
Proof. intros a b c. unfold Sqlite.newer. lia. Qed.

#[local] Instance sq_newer_total : Total (Sqlite.newer (num:=num)).
Proof. intros a b. unfold Sqlite.newer. lia. Qed.

#[local] Instance pg_newer_trans : Transitive (Pg.newer (numeric:=numeric)).
Proof. intros a b c. unfold Pg.newer. lia. Qed.

#[local] Instance pg_newer_total : Total (Pg.newer (numeric:=numeric)).
Proof. intros a b. unfold Pg.newer. lia. Qed.




End HistoryOrder.




(** ** C9: what a deposit request is refused for *)

Section DepositRefused.
Context {num numeric : Type} `{JsNumber num} `{PgNumeric num numeric}.







End DepositRefused.




(** ** C10: the two servers on one sequence of requests *)

(** C10, at the failing input.  Both servers are given the same
    sequence: an identifier is issued to the same wallet, 0.3 is deposited
    with a settlement reference, 0.1 is withdrawn and 0.2 is withdrawn,
    the settlement of each withdrawal succeeding.  The PostgreSQL server
    refuses the last withdrawal: its balance is [0.3 - 0.1] on doubles,
    0.19999999999999998, and [available < amt] holds; it ends with
    deposited 0.3 and withdrawn 0.1.  The SQLite server reserves it, since
    0.2 is not above that balance plus 1e-9, and ends with deposited 0.3
    and withdrawn [0.1 + 0.2] = 0.30000000000000004.  The two servers
    also part on a deposit that carries no settlement reference: the
    PostgreSQL server credits it, the SQLite server answers 400 and
    credits nothing. *)
Theorem C10_variants_disagree :
  (let pg :=
     Pg.run Pg.init
       [ Pg.Generate (Some Scenario.walletA) Scenario.noteBytes 1000;
         Pg.Deposit (Some Scenario.walletA) (Some Scenario.pg_zkp) (Some 0.3%float)
           (Some "5VERv8") 2000;
         Pg.Withdraw (Some Scenario.pg_zkp) (Some Scenario.note) (Some 0.1%float)
           (Some Scenario.recipient) (Some "4sGjMW1s") 3000 ] in
   let sq :=
     Sqlite.run (Sqlite.init true)
       [ Sqlite.Generate (Some Scenario.walletA) Scenario.partA Scenario.partB
           Scenario.noteBytes 1000;
         Sqlite.Deposit (Some Scenario.walletA) (Some Scenario.zkp) (Some 0.3%float)
           (Some "5VERv8") 2000;
         Sqlite.Withdraw (Some Scenario.zkp) (Some Scenario.note) (Some 0.1%float)
           (Some Scenario.recipient) 3000;
         Sqlite.Settle 2 (Some "4sGjMW1s") ] in
   let pg_last :=
     Pg.Withdraw (Some Scenario.pg_zkp) (Some Scenario.note) (Some 0.2%float)
       (Some Scenario.recipient) (Some "3Bxs4h24") 4000 in
   let sq_last :=
     Sqlite.Withdraw (Some Scenario.zkp) (Some Scenario.note) (Some 0.2%float)
       (Some Scenario.recipient) 4000 in
   (pg_answer pg pg_last,
    (λ r, (Pg.total_amount r, Pg.spent_amount r))
      <$> Pg.zk_proofs (Pg.step pg pg_last) !! Scenario.pg_zkp,
    sq_answer sq sq_last,
    (λ r, (Sqlite.total r, Sqlite.spent r))
      <$> Sqlite.zk_proofs
            (Sqlite.run sq [sq_last; Sqlite.Settle 3 (Some "3Bxs4h24")])
          !! Scenario.zkp))
  = (Pg.Error 400 "insufficient balance",
     Some (PgFloat.Nanos 300000000, PgFloat.Nanos 100000000),
     Some (Sqlite.WithdrawPending 3),
     Some (0.3%float, 0.30000000000000004%float))
  ∧ (let pg_second :=
       Pg.Deposit (Some Scenario.walletA) (Some Scenario.pg_zkp) (Some 1%float) None 3000 in
     let sq_second :=
       Sqlite.Deposit (Some Scenario.walletA) (Some Scenario.zkp) (Some 1%float) None 3000 in
     (pg_answer Scenario.pg_funded pg_second,
      Pg.total_amount
        <$> Pg.zk_proofs (Pg.step Scenario.pg_funded pg_second) !! Scenario.pg_zkp,
      sq_answer Scenario.sq_funded sq_second,
      Sqlite.total
        <$> Sqlite.zk_proofs (Sqlite.step Scenario.sq_funded sq_second) !! Scenario.zkp))
    = (Pg.Ok Scenario.pg_zkp 2%float 2%float 0%float,
       Some (PgFloat.Nanos 2000000000),
       Some (Sqlite.Error 400
               "walletPubkey, zkProofId, amount, txSignature are required"),
       Some 1%float).
Proof. split; vm_compute; reflexivity. Qed.

(** * Part IV: the helpers and the other routes *)

(** ** Hexadecimal strings and digests *)

Section HexStrings.
Local Open Scope N_scope.

Lemma string_length_app (s1 s2 : string) :
  String.length (s1 ++ s2) = (String.length s1 + String.length s2)%nat.
Proof. induction s1 as [|c s1 IH]; simpl; [done|]. by rewrite IH. Qed.

Lemma every_char_app p (s1 s2 : string) :
  every_char p (s1 ++ s2) = every_char p s1 && every_char p s2.
Proof.
  induction s1 as [|c s1 IH]; simpl; [done|]. by rewrite IH, andb_assoc.
Qed.

Lemma hex_digit_code u d :
  d < 16 →
  N_of_ascii (Hex.digit u d)
  = if d <? 10 then 48 + d else (if u then 55 else 87) + d.
Proof.
  intros Hd. unfold Hex.digit.
  destruct (N.ltb_spec d 10); [|destruct u]; apply N_ascii_embedding; lia.
Qed.

Lemma hex_digit_lower d : d < 16 → lower_hex (Hex.digit false d) = true.
Proof.
  intros Hd. unfold lower_hex. rewrite hex_digit_code by done. cbv zeta.
  destruct (N.ltb_spec d 10).
  - apply orb_true_iff. left. apply andb_true_iff. split; apply N.leb_le; lia.
  - apply orb_true_iff. right. apply andb_true_iff. split; apply N.leb_le; lia.
Qed.

Lemma hex_digit_upper d : d < 16 → upper_hex (Hex.digit true d) = true.
Proof.
  intros Hd. unfold upper_hex. rewrite hex_digit_code by done. cbv zeta.
  destruct (N.ltb_spec d 10).
  - apply orb_true_iff. left. apply andb_true_iff. split; apply N.leb_le; lia.
  - apply orb_true_iff. right. apply andb_true_iff. split; apply N.leb_le; lia.
Qed.

Lemma hex_digit_inj u d d' :
  d < 16 → d' < 16 → Hex.digit u d = Hex.digit u d' → d = d'.
Proof.
  intros Hd Hd' Heq. apply (f_equal N_of_ascii) in Heq.
  rewrite !hex_digit_code in Heq by done.
  destruct (N.ltb_spec d 10), (N.ltb_spec d' 10), u; lia.
Qed.

(** [toUpperCase] takes a lower-case digit to the upper-case one. *)
Lemma hex_digit_toUpperCase d :
  d < 16 → Hex.upper_ascii (Hex.digit false d) = Hex.digit true d.
Proof.
  intros Hd. unfold Hex.upper_ascii. rewrite hex_digit_code by done. cbv zeta.
  unfold Hex.digit. destruct (N.ltb_spec d 10).
  - replace ((97 <=? 48 + d) && (48 + d <=? 122)) with false; [done|].
    symmetry. apply andb_false_iff. left. apply N.leb_gt. lia.
  - replace ((97 <=? 87 + d) && (87 + d <=? 122)) with true.
    + f_equal. lia.
    + symmetry. apply andb_true_iff. split; apply N.leb_le; lia.
Qed.

Lemma hex_nibbles b :
  b < 256 → N.shiftr b 4 < 16 ∧ N.land b 15 < 16 ∧ b = 16 * N.shiftr b 4 + N.land b 15.
Proof.
  intros Hb. rewrite N.shiftr_div_pow2. change 15 with (N.ones 4).
  rewrite N.land_ones. change (2 ^ 4) with 16.
  pose proof (N.div_mod b 16). pose proof (N.mod_lt b 16).
  assert (b / 16 < 16) by (apply N.Div0.div_lt_upper_bound; lia).
  lia.
Qed.

Lemma hex_encode_cons b (bs : list N) :
  Hex.encode (b :: bs)
  = String (Hex.digit false (N.shiftr b 4))
      (String (Hex.digit false (N.land b 15)) (Hex.encode bs)).
Proof. reflexivity. Qed.

Lemma hex_encode_upper_cons b (bs : list N) :
  Hex.encode_upper (b :: bs)
  = String (Hex.digit true (N.shiftr b 4))
      (String (Hex.digit true (N.land b 15)) (Hex.encode_upper bs)).
Proof. reflexivity. Qed.

Lemma hex_encode_upper_app (bs bs' : list N) :
  Hex.encode_upper (bs ++ bs')%list = Hex.encode_upper bs ++ Hex.encode_upper bs'.
Proof.
  induction bs as [|b bs IH]; [done|].
  rewrite <- app_comm_cons, !hex_encode_upper_cons, IH. reflexivity.
Qed.

Lemma hex_encode_length (bs : list N) :
  String.length (Hex.encode bs) = (2 * length bs)%nat.
Proof.
  induction bs as [|b bs IH]; [done|].
  rewrite hex_encode_cons. cbn [String.length length]. rewrite IH. lia.
Qed.

Lemma hex_encode_upper_length (bs : list N) :
  String.length (Hex.encode_upper bs) = (2 * length bs)%nat.
Proof.
  induction bs as [|b bs IH]; [done|].
  rewrite hex_encode_upper_cons. cbn [String.length length]. rewrite IH. lia.
Qed.

Lemma hex_encode_lower (bs : list N) :
  Forall (λ b, b < 256) bs → every_char lower_hex (Hex.encode bs) = true.
Proof.
  induction 1 as [|b bs Hb _ IH]; [done|].
  destruct (hex_nibbles b Hb) as (Hh & Hl & _).
  rewrite hex_encode_cons. cbn [every_char].
  by rewrite !hex_digit_lower, IH.
Qed.

Lemma hex_encode_upper_upper (bs : list N) :
  Forall (λ b, b < 256) bs → every_char upper_hex (Hex.encode_upper bs) = true.
Proof.
  induction 1 as [|b bs Hb _ IH]; [done|].
  destruct (hex_nibbles b Hb) as (Hh & Hl & _).
  rewrite hex_encode_upper_cons. cbn [every_char].
  by rewrite !hex_digit_upper, IH.
Qed.

Lemma hex_encode_toUpperCase (bs : list N) :
  Forall (λ b, b < 256) bs → Hex.toUpperCase (Hex.encode bs) = Hex.encode_upper bs.
Proof.
  induction 1 as [|b bs Hb _ IH]; [done|].
  destruct (hex_nibbles b Hb) as (Hh & Hl & _).
  rewrite hex_encode_cons, hex_encode_upper_cons. cbn [Hex.toUpperCase].
  by rewrite !hex_digit_toUpperCase, IH.
Qed.

Lemma hex_encode_inj (u : bool) (bs bs' : list N) :
  Forall (λ b, b < 256) bs → Forall (λ b, b < 256) bs' →
  (if u then Hex.encode_upper else Hex.encode) bs
  = (if u then Hex.encode_upper else Hex.encode) bs' →
  bs = bs'.
Proof.
  intros Hbs. revert bs'. induction Hbs as [|b bs Hb _ IH]; intros bs' Hbs' Heq.
  - destruct Hbs' as [|b' bs' _ _]; [done|]. by destruct u.
  - destruct Hbs' as [|b' bs' Hb' Hbs']; [by destruct u|].
    assert (Hex.digit u (N.shiftr b 4) = Hex.digit u (N.shiftr b' 4)
            ∧ Hex.digit u (N.land b 15) = Hex.digit u (N.land b' 15)
            ∧ (if u then Hex.encode_upper else Hex.encode) bs
              = (if u then Hex.encode_upper else Hex.encode) bs') as (Hh & Hl & Hs).
    { destruct u; [rewrite !hex_encode_upper_cons in Heq|rewrite !hex_encode_cons in Heq];
        by injection Heq. }
    destruct (hex_nibbles b Hb) as (Hbh & Hbl & Hbe).
    destruct (hex_nibbles b' Hb') as (Hbh' & Hbl' & Hbe').
    apply hex_digit_inj in Hh; [|done..]. apply hex_digit_inj in Hl; [|done..].
    f_equal; [lia|]. by apply IH.
Qed.

Lemma bytes_bounded (bs : list Byte.byte) : Forall (λ b, b < 256) (map Byte.to_N bs).
Proof.
  apply Forall_forall. intros b Hb. apply list_elem_of_fmap in Hb as (x & -> & _).
  pose proof (Byte.to_N_bounded x). lia.
Qed.

Lemma bytes_to_N_inj (bs bs' : list Byte.byte) :
  map Byte.to_N bs = map Byte.to_N bs' → bs = bs'.
Proof.
  revert bs'. induction bs as [|b bs IH]; intros [|b' bs'] Heq; try done.
  simpl in Heq. injection Heq as Hb Hbs. f_equal; [|by apply IH].
  pose proof (Byte.of_to_N b) as Hof. rewrite Hb, Byte.of_to_N in Hof. congruence.
Qed.

Lemma hex_of_bytes_inj u (bs bs' : list Byte.byte) :
  hex_of_bytes u bs = hex_of_bytes u bs' → bs = bs'.
Proof.
  unfold hex_of_bytes. intros Heq. apply bytes_to_N_inj.
  eapply (hex_encode_inj u); [apply bytes_bounded..|done].
Qed.
End HexStrings.

Section Digest.
Local Open Scope N_scope.

Lemma sha_round_length st kw : length st = 8%nat → length (Sha256.round st kw) = 8%nat.
Proof.
  intros Hl. do 9 (destruct st as [|? st]; try discriminate). reflexivity.
Qed.

Lemma sha_rounds_length kws st :
  length st = 8%nat → length (fold_left Sha256.round kws st) = 8%nat.
Proof.
  revert st. induction kws as [|kw kws IH]; intros st Hl; simpl; [done|].
  by apply IH, sha_round_length.
Qed.

Lemma sha_compress_length h block :
  length h = 8%nat → length (Sha256.compress h block) = 8%nat.
Proof.
  intros Hl. unfold Sha256.compress.
  rewrite length_map, length_combine, sha_rounds_length, Hl by done. reflexivity.
Qed.

Lemma sha_state_length blocks h :
  length h = 8%nat → length (fold_left Sha256.compress blocks h) = 8%nat.
Proof.
  revert h. induction blocks as [|b blocks IH]; intros h Hl; simpl; [done|].
  by apply IH, sha_compress_length.
Qed.

Lemma sha_be_bytes_length n x : length (Sha256.be_bytes n x) = n.
Proof.
  revert x. induction n as [|n IH]; intros x; simpl; [done|].
  rewrite length_app, IH. simpl. lia.
Qed.

Lemma sha_be_bytes_bounded n x : Forall (λ b, b < 256) (Sha256.be_bytes n x).
Proof.
  revert x. induction n as [|n IH]; intros x; simpl; [constructor|].
  apply Forall_app. split; [apply IH|]. constructor; [|constructor].
  change 255 with (N.ones 8). rewrite N.land_ones. by apply N.mod_lt.
Qed.

Lemma sha_flat_bytes (ws : list N) :
  length (flat_map (Sha256.be_bytes 4) ws) = (4 * length ws)%nat
  ∧ Forall (λ b, b < 256) (flat_map (Sha256.be_bytes 4) ws).
Proof.
  induction ws as [|w ws [IHl IHb]]; [split; [done|constructor]|].
  cbn [flat_map]. split.
  - rewrite length_app, sha_be_bytes_length, IHl. simpl. lia.
  - apply Forall_app. split; [apply sha_be_bytes_bounded|done].
Qed.

(** A digest is 32 bytes. *)
Lemma sha_digest_bytes msg :
  length (Sha256.digest msg) = 32%nat ∧ Forall (λ b, b < 256) (Sha256.digest msg).
Proof.
  unfold Sha256.digest. cbv zeta.
  set (blocks := Sha256.chunks _ _ _).
  pose proof (sha_state_length blocks Sha256.H0 eq_refl) as Hl.
  destruct (sha_flat_bytes (fold_left Sha256.compress blocks Sha256.H0)) as [Hlen Hb].
  split; [by rewrite Hlen, Hl|done].
Qed.

Lemma sha256Hex_length str : String.length (sha256Hex str) = 64%nat.
Proof.
  unfold sha256Hex. rewrite hex_encode_length.
  by rewrite (proj1 (sha_digest_bytes _)).
Qed.

Lemma sha256Hex_lower str : every_char lower_hex (sha256Hex str) = true.
Proof. unfold sha256Hex. apply hex_encode_lower, sha_digest_bytes. Qed.
End Digest.

Section StringOps.
Local Open Scope N_scope.

Lemma substring_0_length m s :
  (m <= String.length s)%nat → String.length (String.substring 0 m s) = m.
Proof.
  revert s. induction m as [|m IH]; intros s Hm; [by destruct s|].
  destruct s as [|c s]; simpl in *; [lia|]. rewrite IH; [done|lia].
Qed.

Lemma substring_0_every p m s :
  every_char p s = true → every_char p (String.substring 0 m s) = true.
Proof.
  revert s. induction m as [|m IH]; intros s Hs; [by destruct s|].
  destruct s as [|c s]; simpl in *; [done|].
  apply andb_true_iff in Hs as [Hc Hs]. by rewrite Hc, IH.
Qed.

Lemma toUpperCase_length s : String.length (Hex.toUpperCase s) = String.length s.
Proof. induction s as [|c s IH]; simpl; [done|]. by rewrite IH. Qed.

Lemma upper_ascii_hex c : lower_hex c = true → upper_hex (Hex.upper_ascii c) = true.
Proof.
  unfold lower_hex, upper_hex, Hex.upper_ascii. cbv zeta.
  pose proof (N_ascii_bounded c) as Hc. set (n := N_of_ascii c) in *.
  intros Hn.
  assert (48 <= n <= 57 ∨ 97 <= n <= 102) as Hrange.
  { apply orb_true_iff in Hn as [Hn|Hn]; apply andb_true_iff in Hn as [H1 H2];
      apply N.leb_le in H1, H2; lia. }
  clear Hn.
  destruct (N.leb_spec 97 n), (N.leb_spec n 122); cbn [andb];
    rewrite ?N_ascii_embedding by lia; fold n;
    apply orb_true_iff; destruct Hrange as [Hr|Hr]; try lia.
  - right. apply andb_true_iff. split; apply N.leb_le; lia.
  - left. apply andb_true_iff. split; apply N.leb_le; lia.
Qed.

Lemma toUpperCase_upper s :
  every_char lower_hex s = true → every_char upper_hex (Hex.toUpperCase s) = true.
Proof.
  induction s as [|c s IH]; simpl; [done|]. intros Hs.
  apply andb_true_iff in Hs as [Hc Hs]. by rewrite upper_ascii_hex, IH.
Qed.
End StringOps.

(** ** The identifiers and notes the servers hand out *)

Lemma generateZkProofId_digits (partA partB : list Byte.byte) :
  ∃ digits,
    Sqlite.generateZkProofId partA partB = "ZKP-" ++ digits
    ∧ String.length digits = (2 * (length partA + length partB))%nat
    ∧ every_char upper_hex digits = true.
Proof.
  unfold Sqlite.generateZkProofId, hex_of_bytes.
  eexists. split; [reflexivity|]. split.
  - rewrite string_length_app, !hex_encode_upper_length, !length_map. lia.
  - rewrite every_char_app, !hex_encode_upper_upper by apply bytes_bounded. done.
Qed.

(** X1. The digest [sha256Hex] (and [sha256] of the SQLite server) returns
    is, for every input, a string of 64 lower-case hexadecimal digits: so
    is every [note_hash] the servers store and compare. *)
Theorem sha256Hex_format (str : string) :
  String.length (sha256Hex str) = 64%nat
  ∧ every_char lower_hex (sha256Hex str) = true.
Proof. split; [apply sha256Hex_length | apply sha256Hex_lower]. Qed.

(** X2. [generateSecretNote]: the note is the lower-case hexadecimal
    writing of the random bytes, two digits a byte (64 digits for the 32
    bytes asked), and different bytes give different notes. *)
Theorem generateSecretNote_faithful (bytes : list Byte.byte) :
  String.length (Sqlite.generateSecretNote bytes) = (2 * length bytes)%nat
  ∧ every_char lower_hex (Sqlite.generateSecretNote bytes) = true
  ∧ ∀ bytes', Sqlite.generateSecretNote bytes = Sqlite.generateSecretNote bytes' →
              bytes = bytes'.
Proof.
  unfold Sqlite.generateSecretNote, hex_of_bytes. split; [|split].
  - by rewrite hex_encode_length, length_map.
  - apply hex_encode_lower, bytes_bounded.
  - intros bytes'. apply (hex_of_bytes_inj false).
Qed.

(** X3. [generateZkProofId]: the identifier is "ZKP-" followed by the
    upper-case hexadecimal writing of the random bytes, as
    [toString("hex").toUpperCase()] gives it: 14 digits for the 4 and 3
    bytes asked, 18 characters in all. *)
Theorem generateZkProofId_format (partA partB : list Byte.byte) :
  Sqlite.generateZkProofId partA partB
  = "ZKP-" ++ Hex.toUpperCase (hex_of_bytes false partA)
           ++ Hex.toUpperCase (hex_of_bytes false partB)
  ∧ ∃ digits,
      Sqlite.generateZkProofId partA partB = "ZKP-" ++ digits
      ∧ String.length digits = (2 * (length partA + length partB))%nat
      ∧ every_char upper_hex digits = true.
Proof.
  split; [|apply generateZkProofId_digits].
  unfold Sqlite.generateZkProofId, hex_of_bytes.
  by rewrite !hex_encode_toUpperCase by apply bytes_bounded.
Qed.

(** X4. Two identifiers of the SQLite server are equal only if the random
    bytes behind them are: with parts of the same lengths, the "ID
    collision" answer needs [randomBytes] to repeat itself. *)
Theorem generateZkProofId_inj (partA partB partA' partB' : list Byte.byte) :
  length partA = length partA' →
  Sqlite.generateZkProofId partA partB = Sqlite.generateZkProofId partA' partB' →
  partA = partA' ∧ partB = partB'.
Proof.
  intros Hlen Heq. unfold Sqlite.generateZkProofId, hex_of_bytes in Heq.
  injection Heq as Heq. rewrite <- !hex_encode_upper_app, <- !map_app in Heq.
  apply (hex_of_bytes_inj true) in Heq. by apply app_inj_1 in Heq.
Qed.

Lemma generateZkProofId_inj_witness :
  [Byte.x01; Byte.x02; Byte.x03; Byte.x04] = Scenario.partA
  ∧ [Byte.x0a; Byte.x0b; Byte.x0c] = Scenario.partB.
Proof.
  apply generateZkProofId_inj; [reflexivity|]. vm_compute. reflexivity.
Defined.

(** X5. The identifier of the PostgreSQL server is, for every wallet and
    note hash, "ZKP-" followed by 16 upper-case hexadecimal digits: 20
    characters, never the 18 of an identifier of the SQLite server. *)
Theorem commitment_format (walletPubkey noteHash : string) :
  (∃ digits,
      Pg.commitment walletPubkey noteHash = "ZKP-" ++ digits
      ∧ String.length digits = 16%nat
      ∧ every_char upper_hex digits = true)
  ∧ ∀ partA partB : list Byte.byte,
      length partA = 4%nat → length partB = 3%nat →
      Pg.commitment walletPubkey noteHash ≠ Sqlite.generateZkProofId partA partB.
Proof.
  assert (∃ digits,
      Pg.commitment walletPubkey noteHash = "ZKP-" ++ digits
      ∧ String.length digits = 16%nat
      ∧ every_char upper_hex digits = true) as Hfmt.
  { unfold Pg.commitment. cbv zeta. eexists. split; [reflexivity|]. split.
    - rewrite toUpperCase_length, substring_0_length; [done|].
      rewrite sha256Hex_length. lia.
    - apply toUpperCase_upper, substring_0_every, sha256Hex_lower. }
  split; [exact Hfmt|].
  intros partA partB Ha Hb Heq. destruct Hfmt as (digits & Hd & Hlen & _).
  apply (f_equal String.length) in Heq. rewrite Hd in Heq.
  destruct (generateZkProofId_digits partA partB) as (digits' & Hd' & Hlen' & _).
  rewrite Hd', !string_length_app, Hlen, Hlen', Ha, Hb in Heq. simpl in Heq. lia.
Qed.

(** ** Requests that are refused, entries that stay *)

Section Refusals.
Context {num numeric : Type} `{JsNumber num} `{PgNumeric num numeric}.

Lemma sq_refused_unchanged (s : Sqlite.state num) e code m :
  sq_answer s e = Some (Sqlite.Error code m) → Sqlite.step s e = s.
Proof.
  destruct e as [w a b n c|w z a sg c|z n a rc c|w|txId outcome]; simpl; intros [= Hresp].
  - destruct (Sqlite.generate w a b n c s) as [resp s'] eqn:Hg. simpl in *. subst resp.
    by apply sq_generate_inv in Hg as [[-> _]|(? & _ & _ & _ & [=] & _)].
  - destruct (Sqlite.deposits w z a sg c s) as [resp s'] eqn:Hd. simpl in *. subst resp.
    by apply sq_deposits_inv in Hd
      as [[-> _]|(? & ? & ? & ? & ? & _ & _ & _ & _ & _ & _ & _ & [=] & _)].
  - destruct (Sqlite.withdrawals z n a rc c s) as [resp s'] eqn:Hd. simpl in *. subst resp.
    by apply sq_withdrawals_inv in Hd
      as [[-> _]|(? & ? & ? & ? & ? & _ & _ & _ & _ & _ & _ & _ & _ & _ & [=] & _)].
  - apply sq_history_state.
Qed.

Lemma pg_refused_unchanged (s : Pg.state numeric) (e : Pg.event num) code m :
  pg_answer s e = Pg.Error code m → Pg.step s e = s.
Proof.
  destruct e as [w n c|w z a sg c|z n a rc sg c|w]; simpl; intros Hresp.
  - destruct (Pg.generate w n c s) as [resp s'] eqn:Hg. simpl in *. subst resp.
    by apply pg_generate_inv in Hg as [[-> _]|(? & _ & _ & [=] & _)].
  - destruct (Pg.deposits w z a sg c s) as [resp s'] eqn:Hd. simpl in *. subst resp.
    by apply pg_deposits_inv in Hd
      as [[-> _]|(? & ? & ? & ? & ? & ? & _ & _ & _ & _ & _ & _ & _ & _ & _ & [=] & _)].
  - destruct (Pg.withdrawals z n a rc sg c s) as [resp s'] eqn:Hd. simpl in *. subst resp.
    by apply pg_withdrawals_inv in Hd
      as [[-> _]|(? & ? & ? & ? & ? & ? & ? & _ & _ & _ & _ & _ & _ & _ & _ & _ & _ & _ & [=] & _)].
  - apply pg_history_state.
Qed.
End Refusals.

(** X6. On both servers a request that is answered with an error, whatever
    the error (400, 403, 404, 500), leaves the database exactly as it was:
    no handler writes before its last check. *)
Theorem refused_request_changes_nothing :
  (∀ (num : Type) (N : JsNumber num) (s : Sqlite.state num) e code m,
      sq_answer s e = Some (Sqlite.Error code m) → Sqlite.step s e = s)
  ∧ (∀ (num numeric : Type) (N : JsNumber num) (P : PgNumeric num numeric)
       (s : Pg.state numeric) (e : Pg.event num) code m,
      pg_answer s e = Pg.Error code m → Pg.step s e = s).
Proof.
  split.
  - intros. by eapply sq_refused_unchanged.
  - intros. by eapply pg_refused_unchanged.
Qed.

Lemma refused_request_changes_nothing_witness :
  Sqlite.step Scenario.sq_funded
    (Sqlite.Withdraw (Some Scenario.zkp) (Some "not the note") (Some 0.5%float)
       (Some Scenario.recipient) 3000)
  = Scenario.sq_funded
  ∧ Pg.step Scenario.pg_funded
      (Pg.Deposit (Some Scenario.recipient) (Some Scenario.pg_zkp)
         (Some 1%float) None 3000)
    = Scenario.pg_funded.
Proof.
  split.
  - eapply (proj1 refused_request_changes_nothing). vm_compute. reflexivity.
  - eapply (proj2 refused_request_changes_nothing). vm_compute. reflexivity.
Defined.

Section Permanence.
Context {num numeric : Type} `{JsNumber num} `{PgNumeric num numeric}.

Lemma sq_entry_alter (f : Sqlite.proof_row num → Sqlite.proof_row num)
    (m : gmap string (Sqlite.proof_row num)) k k' r :
  (∀ x, sq_same_entry x (f x)) → m !! k = Some r →
  ∃ r', alter f k' m !! k = Some r' ∧ sq_same_entry r r'.
Proof.
  unfold sq_same_entry, pg_same_entry in *.
  intros Hf Hr. destruct (decide (k' = k)) as [->|Hne].
  - rewrite lookup_alter_eq, Hr. simpl. eexists. split; [done|apply Hf].
  - rewrite lookup_alter_ne by done. eauto.
Qed.

Lemma sq_entry_step (s : Sqlite.state num) e k r :
  Sqlite.zk_proofs s !! k = Some r →
  ∃ r', Sqlite.zk_proofs (Sqlite.step s e) !! k = Some r' ∧ sq_same_entry r r'.
Proof.
  unfold sq_same_entry, pg_same_entry in *.
  intros Hr. destruct e as [w a b n c|w z a sg c|z n a rc c|w|txId outcome]; simpl.
  - destruct (Sqlite.generate w a b n c s) as [resp s'] eqn:Hg.
    apply sq_generate_inv in Hg as [[-> _]|(wallet & -> & _ & Hfresh & _ & ->)];
      simpl; [eauto|].
    exists r. split; [|done]. rewrite lookup_insert_ne; [done|]. congruence.
  - destruct (Sqlite.deposits w z a sg c s) as [resp s'] eqn:Hd.
    apply sq_deposits_inv in Hd
      as [[-> _]|(wallet & zkp & amt & sig & r0 & _ & _ & _ & _ & _ & _ & _ & _ & ->)];
      simpl; [eauto|].
    apply sq_entry_alter; [by unfold sq_same_entry|done].
  - destruct (Sqlite.withdrawals z n a rc c s) as [resp s'] eqn:Hd.
    apply sq_withdrawals_inv in Hd
      as [[-> _]|(zkp & nt & amt & rcpt & r0 & _ & _ & _ & _ & _ & _ & _ & _ & _ & _ & ->)];
      simpl; [eauto|].
    apply sq_entry_alter; [by unfold sq_same_entry|done].
  - rewrite sq_history_state. eauto.
  - destruct (sq_settle_entries txId outcome s) as [->|(j & _ & _ & ->)]; [eauto|].
    apply sq_entry_alter; [by unfold sq_same_entry|done].
Qed.

Lemma sq_entry_run es (s : Sqlite.state num) k r :
  Sqlite.zk_proofs s !! k = Some r →
  ∃ r', Sqlite.zk_proofs (Sqlite.run s es) !! k = Some r' ∧ sq_same_entry r r'.
Proof.
  unfold sq_same_entry, pg_same_entry in *.
  revert s r. induction es as [|e es IH]; intros s r Hr; simpl; [eauto|].
  destruct (sq_entry_step s e k r Hr) as (r1 & Hr1 & Hw & Hn & Hc).
  destruct (IH _ _ Hr1) as (r' & Hr' & Hw' & Hn' & Hc').
  exists r'. split; [done|]. repeat split; congruence.
Qed.

Lemma pg_entry_step (s : Pg.state numeric) (e : Pg.event num) k r :
  Pg.zk_proofs s !! k = Some r →
  ∃ r', Pg.zk_proofs (Pg.step s e) !! k = Some r' ∧ pg_same_entry r r'.
Proof.
  unfold sq_same_entry, pg_same_entry in *.
  intros Hr. destruct e as [w n c|w z a sg c|z n a rc sg c|w]; simpl.
  - destruct (Pg.generate w n c s) as [resp s'] eqn:Hg.
    apply pg_generate_inv in Hg
      as [[-> _]|(wallet & -> & _ & _ & [[_ ->]|[Hfresh ->]])]; simpl; [eauto..|].
    exists r. split; [|done]. rewrite lookup_insert_ne; [done|]. congruence.
  - destruct (Pg.deposits w z a sg c s) as [resp s'] eqn:Hd.
    apply pg_deposits_inv in Hd
      as [[-> _]|(wallet & zkp & amt & r0 & total' & stored & _ & _ & _ & Hr0 & _ & _ & _ & _ & _ & _ & ->)];
      simpl; [eauto|].
    destruct (decide (zkp = k)) as [->|Hne].
    + rewrite lookup_insert_eq. eexists. split; [done|].
      assert (r0 = r) as -> by congruence. done.
    + rewrite lookup_insert_ne by done. eauto.
  - destruct (Pg.withdrawals z n a rc sg c s) as [resp s'] eqn:Hd.
    apply pg_withdrawals_inv in Hd
      as [[-> _]|(zkp & nt & amt & rcpt & r0 & spent' & stored & _ & _ & _ & _ & Hr0 & _ & _ & _ & _ & _ & _ & _ & ->)];
      simpl; [eauto|].
    destruct (decide (zkp = k)) as [->|Hne].
    + rewrite lookup_insert_eq. eexists. split; [done|].
      assert (r0 = r) as -> by congruence. done.
    + rewrite lookup_insert_ne by done. eauto.
  - rewrite pg_history_state. eauto.
Qed.

Lemma pg_entry_run (es : list (Pg.event num)) (s : Pg.state numeric) k r :
  Pg.zk_proofs s !! k = Some r →
  ∃ r', Pg.zk_proofs (Pg.run s es) !! k = Some r' ∧ pg_same_entry r r'.
Proof.
  unfold sq_same_entry, pg_same_entry in *.
  revert s r. induction es as [|e es IH]; intros s r Hr; simpl; [eauto|].
  destruct (pg_entry_step s e k r Hr) as (r1 & Hr1 & Hw & Hn & Hc).
  destruct (IH _ _ Hr1) as (r' & Hr' & Hw' & Hn' & Hc').
  exists r'. split; [done|]. repeat split; congruence.
Qed.

(** The identifier of an entry of the PostgreSQL server is the commitment
    to its wallet and note hash. *)
Lemma pg_committed_step (s : Pg.state numeric) (e : Pg.event num) :
  map_Forall (λ k r, k = Pg.commitment (Pg.wallet_pubkey r) (Pg.note_hash r)
                     ∧ Pg.wallet_pubkey r ≠ "") (Pg.zk_proofs s) →
  map_Forall (λ k r, k = Pg.commitment (Pg.wallet_pubkey r) (Pg.note_hash r)
                     ∧ Pg.wallet_pubkey r ≠ "") (Pg.zk_proofs (Pg.step s e)).
Proof.
  intros Hs. destruct e as [w n c|w z a sg c|z n a rc sg c|w]; simpl.
  - destruct (Pg.generate w n c s) as [resp s'] eqn:Hg.
    apply pg_generate_inv in Hg
      as [[-> _]|(wallet & -> & Hw & _ & [[_ ->]|[Hfresh ->]])]; simpl; [done..|].
    apply map_Forall_insert_2; [|done]. done.
  - destruct (Pg.deposits w z a sg c s) as [resp s'] eqn:Hd.
    apply pg_deposits_inv in Hd
      as [[-> _]|(wallet & zkp & amt & r0 & total' & stored & _ & _ & _ & Hr0 & _ & _ & _ & _ & _ & _ & ->)];
      simpl; [done|].
    apply map_Forall_insert_2; [|done]. apply (Hs zkp r0 Hr0).
  - destruct (Pg.withdrawals z n a rc sg c s) as [resp s'] eqn:Hd.
    apply pg_withdrawals_inv in Hd
      as [[-> _]|(zkp & nt & amt & rcpt & r0 & spent' & stored & _ & _ & _ & _ & Hr0 & _ & _ & _ & _ & _ & _ & _ & ->)];
      simpl; [done|].
    apply map_Forall_insert_2; [|done]. apply (Hs zkp r0 Hr0).
  - by rewrite pg_history_state.
Qed.

Lemma pg_committed_run (es : list (Pg.event num)) (s : Pg.state numeric) :
  map_Forall (λ k r, k = Pg.commitment (Pg.wallet_pubkey r) (Pg.note_hash r)
                     ∧ Pg.wallet_pubkey r ≠ "") (Pg.zk_proofs s) →
  map_Forall (λ k r, k = Pg.commitment (Pg.wallet_pubkey r) (Pg.note_hash r)
                     ∧ Pg.wallet_pubkey r ≠ "") (Pg.zk_proofs (Pg.run s es)).
Proof.
  revert s. induction es as [|e es IH]; intros s Hs; simpl; [done|].
  by apply IH, pg_committed_step.
Qed.

(** The log of the PostgreSQL server only grows at its end. *)
Lemma pg_log_step (s : Pg.state numeric) (e : Pg.event num) :
  Pg.zk_transfers s `prefix_of` Pg.zk_transfers (Pg.step s e).
Proof.
  destruct e as [w n c|w z a sg c|z n a rc sg c|w]; simpl.
  - destruct (Pg.generate w n c s) as [resp s'] eqn:Hg.
    by apply pg_generate_inv in Hg
      as [[-> _]|(wallet & -> & _ & _ & [[_ ->]|[Hfresh ->]])].
  - destruct (Pg.deposits w z a sg c s) as [resp s'] eqn:Hd.
    apply pg_deposits_inv in Hd
      as [[-> _]|(wallet & zkp & amt & r0 & total' & stored & _ & _ & _ & _ & _ & _ & _ & _ & _ & _ & ->)];
      simpl; [done|]. by apply prefix_app_r.
  - destruct (Pg.withdrawals z n a rc sg c s) as [resp s'] eqn:Hd.
    apply pg_withdrawals_inv in Hd
      as [[-> _]|(zkp & nt & amt & rcpt & r0 & spent' & stored & _ & _ & _ & _ & _ & _ & _ & _ & _ & _ & _ & _ & ->)];
      simpl; [done|]. by apply prefix_app_r.
  - by rewrite pg_history_state.
Qed.

Lemma pg_log_run (es : list (Pg.event num)) (s : Pg.state numeric) :
  Pg.zk_transfers s `prefix_of` Pg.zk_transfers (Pg.run s es).
Proof.
  revert s. induction es as [|e es IH]; intros s; simpl; [done|].
  etrans; [apply pg_log_step|apply IH].
Qed.
End Permanence.

(** X7. No event of either server deletes an entry or changes its owner,
    its note hash or its creation time: whatever follows, an entry that is
    there stays there, and only its accumulators move. *)
Theorem entries_are_permanent :
  (∀ (num : Type) (N : JsNumber num) (s : Sqlite.state num) es k r,
      Sqlite.zk_proofs s !! k = Some r →
      ∃ r', Sqlite.zk_proofs (Sqlite.run s es) !! k = Some r'
            ∧ Sqlite.wallet_pubkey r' = Sqlite.wallet_pubkey r
            ∧ Sqlite.note_hash r' = Sqlite.note_hash r
            ∧ Sqlite.created_at r' = Sqlite.created_at r)
  ∧ (∀ (num numeric : Type) (N : JsNumber num) (P : PgNumeric num numeric)
       (s : Pg.state numeric) (es : list (Pg.event num)) k r,
      Pg.zk_proofs s !! k = Some r →
      ∃ r', Pg.zk_proofs (Pg.run s es) !! k = Some r'
            ∧ Pg.wallet_pubkey r' = Pg.wallet_pubkey r
            ∧ Pg.note_hash r' = Pg.note_hash r
            ∧ Pg.created_at r' = Pg.created_at r).
Proof.
  split.
  - intros. by apply sq_entry_run.
  - intros. by apply pg_entry_run.
Qed.

Lemma entries_are_permanent_witness :
  ∃ r', Sqlite.zk_proofs
          (Sqlite.run Scenario.sq_funded
             [ Sqlite.Withdraw (Some Scenario.zkp) (Some Scenario.note) (Some 0.5%float)
                 (Some Scenario.recipient) 3000;
               Sqlite.Settle 2 None ]) !! Scenario.zkp = Some r'
        ∧ Sqlite.wallet_pubkey r' = Scenario.walletA
        ∧ Sqlite.created_at r' = 1000%Z.
Proof.
  assert (Sqlite.zk_proofs Scenario.sq_funded !! Scenario.zkp
          = Some {| Sqlite.wallet_pubkey := Scenario.walletA;
                    Sqlite.note_hash := sha256Hex Scenario.note;
                    Sqlite.total := 1%float; Sqlite.spent := 0%float;
                    Sqlite.created_at := 1000%Z |}) as Hr
    by (vm_compute; reflexivity).
  destruct (proj1 entries_are_permanent float Float64.number Scenario.sq_funded
              [ Sqlite.Withdraw (Some Scenario.zkp) (Some Scenario.note) (Some 0.5%float)
                  (Some Scenario.recipient) 3000;
                Sqlite.Settle 2 None ] Scenario.zkp _ Hr)
    as (r' & Hr' & Hw & _ & Hc).
  exists r'. split; [exact Hr'|]. split; [exact Hw|exact Hc].
Defined.

(** X8. In every state the PostgreSQL server reaches, the identifier of
    an entry is the commitment to the entry's own wallet and note hash
    ("ZKP-" and the first 16 digits of the SHA-256 of [wallet:noteHash]),
    and no entry has an empty wallet. *)
Theorem pg_identifier_commits {num numeric : Type} `{JsNumber num}
    `{PgNumeric num numeric} (es : list (Pg.event num)) :
  map_Forall (λ k r, k = Pg.commitment (Pg.wallet_pubkey r) (Pg.note_hash r)
                     ∧ Pg.wallet_pubkey r ≠ "")
    (Pg.zk_proofs (Pg.run (numeric:=numeric) Pg.init es)).
Proof.
  apply pg_committed_run. intros k r Hr. simpl in Hr. by rewrite lookup_empty in Hr.
Qed.

(** X9. The log [zk_transfers] of the PostgreSQL server is append-only:
    after any sequence of requests the rows that were there are still
    there, unchanged and in the same order, before the new ones. *)
Theorem pg_log_append_only {num numeric : Type} `{JsNumber num} `{PgNumeric num numeric}
    (s : Pg.state numeric) (es : list (Pg.event num)) :
  Pg.zk_transfers s `prefix_of` Pg.zk_transfers (Pg.run s es).
Proof. apply pg_log_run. Qed.

(** ** A server without pool key *)

Section NoPoolKey.
Context {num : Type} `{JsNumber num}.
Import Sqlite.

Lemma sq_idle_step s e : sq_idle s → sq_idle (step s e).
Proof.
  intros (Hpool & Hjobs & Hrows & Hspent).
  destruct e as [w a b n c|w z a sg c|z n a rc c|w|txId outcome]; simpl.
  - destruct (generate w a b n c s) as [resp s'] eqn:Hg.
    apply sq_generate_inv in Hg as [[-> _]|(wallet & -> & _ & Hfresh & _ & ->)];
      [done|]. repeat split; try done. simpl. by apply map_Forall_insert_2.
  - destruct (deposits w z a sg c s) as [resp s'] eqn:Hd.
    apply sq_deposits_inv in Hd
      as [[-> _]|(wallet & zkp & amt & sig & r0 & _ & _ & _ & _ & _ & _ & _ & _ & ->)];
      [done|]. repeat split; try done; simpl.
    + apply Forall_app. split; [done|]. by repeat constructor.
    + intros k r. destruct (decide (zkp = k)) as [->|Hne].
      * rewrite lookup_alter_eq. destruct (zk_proofs s !! k) as [r1|] eqn:Hr1; [|done].
        intros [= <-]. simpl. by apply (Hspent k).
      * rewrite lookup_alter_ne by done. apply Hspent.
  - destruct (withdrawals z n a rc c s) as [resp s'] eqn:Hd.
    apply sq_withdrawals_inv in Hd
      as [[-> _]|(zkp & nt & amt & rcpt & r0 & _ & _ & _ & _ & Hp & _)]; [done|].
    congruence.
  - by rewrite sq_history_state.
  - unfold settle. by rewrite Hjobs.
Qed.

Lemma sq_idle_run es s : sq_idle s → sq_idle (run s es).
Proof.
  revert s. induction es as [|e es IH]; intros s Hs; simpl; [done|].
  by apply IH, sq_idle_step.
Qed.
End NoPoolKey.

(** X11. A SQLite server started without [POOL_SECRET_KEY_BASE58] answers
    every withdrawal request with an error and never reserves anything:
    after any sequence of events there is no settlement job, the log holds
    confirmed deposits only and [spent] is still the initial 0 in every
    entry. *)
Theorem no_pool_key_no_withdrawal {num : Type} `{JsNumber num}
    (es : list (Sqlite.event num)) :
  sq_idle (Sqlite.run (Sqlite.init false) es)
  ∧ ∀ z n a rc c, ∃ code m,
      Sqlite.withdrawals z n a rc c (Sqlite.run (Sqlite.init false) es)
      = (Sqlite.Error code m, Sqlite.run (Sqlite.init false) es).
Proof.
  assert (sq_idle (Sqlite.run (Sqlite.init false) es)) as Hidle.
  { apply sq_idle_run. repeat split; first [done | constructor]. }
  split; [done|]. intros z n a rc c.
  destruct (Sqlite.withdrawals z n a rc c _) as [resp s'] eqn:Hd.
  apply sq_withdrawals_inv in Hd
    as [[-> (code & m & ->)]|(zkp & nt & amt & rcpt & r0 & _ & _ & _ & _ & Hp & _)];
    [eauto|].
  destruct Hidle as (Hpool & _). congruence.
Qed.

(** ** The ids of the transactions *)

Section RowIds.
Context {num : Type} `{JsNumber num}.
Import Sqlite.

Lemma sq_numbered_append (l : list (tx_row num)) (sq : N) t :
  map tx_id l = map N.of_nat (seq 1 (length l)) → sq = N.of_nat (length l) →
  tx_id t = (sq + 1)%N →
  map tx_id (l ++ [t]) = map N.of_nat (seq 1 (length (l ++ [t])))
  ∧ (sq + 1)%N = N.of_nat (length (l ++ [t])).
Proof.
  intros Hids -> Ht. rewrite length_app, map_app, Hids. simpl.
  rewrite Nat.add_1_r, seq_S, map_app. simpl. rewrite Ht. split; [|lia].
  do 2 f_equal. lia.
Qed.

Lemma sq_numbered_step s e :
  map tx_id (transactions s) = map N.of_nat (seq 1 (length (transactions s)))
  ∧ sqlite_sequence s = N.of_nat (length (transactions s)) →
  map tx_id (transactions (step s e))
  = map N.of_nat (seq 1 (length (transactions (step s e))))
  ∧ sqlite_sequence (step s e) = N.of_nat (length (transactions (step s e))).
Proof.
  intros [Hids Hseq].
  destruct e as [w a b n c|w z a sg c|z n a rc c|w|txId outcome]; simpl.
  - destruct (generate w a b n c s) as [resp s'] eqn:Hg.
    by apply sq_generate_inv in Hg as [[-> _]|(wallet & -> & _ & Hfresh & _ & ->)].
  - destruct (deposits w z a sg c s) as [resp s'] eqn:Hd.
    apply sq_deposits_inv in Hd
      as [[-> _]|(wallet & zkp & amt & sig & r0 & _ & _ & _ & _ & _ & _ & _ & _ & ->)];
      [done|]. simpl. by apply sq_numbered_append.
  - destruct (withdrawals z n a rc c s) as [resp s'] eqn:Hd.
    apply sq_withdrawals_inv in Hd
      as [[-> _]|(zkp & nt & amt & rcpt & r0 & _ & _ & _ & _ & _ & _ & _ & _ & _ & _ & ->)];
      [done|]. simpl. by apply sq_numbered_append.
  - by rewrite sq_history_state.
  - destruct (sq_settle_rest txId outcome s) as (-> & _ & _).
    destruct (find (is_job txId) (jobs s)) as [j|] eqn:Hf; [|by rewrite sq_settle_idle].
    destruct (sq_settle_transactions txId outcome s j Hf) as [(_ & _ & ->)|[_ ->]];
      [done|].
    by rewrite sq_map_set_status_ids, length_map.
Qed.

Lemma sq_numbered_run es s :
  map tx_id (transactions s) = map N.of_nat (seq 1 (length (transactions s)))
  ∧ sqlite_sequence s = N.of_nat (length (transactions s)) →
  map tx_id (transactions (run s es))
  = map N.of_nat (seq 1 (length (transactions (run s es))))
  ∧ sqlite_sequence (run s es) = N.of_nat (length (transactions (run s es))).
Proof.
  revert s. induction es as [|e es IH]; intros s Hs; simpl; [done|].
  by apply IH, sq_numbered_step.
Qed.
End RowIds.

(** X12. On the SQLite server the ids of [transactions] are 1, 2, ..., n
    in the order of insertion, after any sequence of events (AUTOINCREMENT,
    and no row is ever deleted); the id a withdrawal is answered with is
    n + 1, the id of no earlier row. *)
Theorem transaction_ids_count_up {num : Type} `{JsNumber num}
    (pool : bool) (es : list (Sqlite.event num)) :
  map Sqlite.tx_id (Sqlite.transactions (Sqlite.run (Sqlite.init pool) es))
  = map N.of_nat (seq 1 (length (Sqlite.transactions (Sqlite.run (Sqlite.init pool) es))))
  ∧ ∀ z n a rc c txId,
      fst (Sqlite.withdrawals z n a rc c (Sqlite.run (Sqlite.init pool) es))
      = Sqlite.WithdrawPending txId →
      txId = N.of_nat (S (length (Sqlite.transactions (Sqlite.run (Sqlite.init pool) es)))).
Proof.
  destruct (sq_numbered_run es (Sqlite.init pool)) as [Hids Hseq]; [done|].
  split; [done|]. intros z n a rc c txId Hresp.
  destruct (Sqlite.withdrawals z n a rc c _) as [resp s'] eqn:Hd. simpl in Hresp. subst resp.
  apply sq_withdrawals_inv in Hd
    as [[_ (? & ? & [=])]|(zkp & nt & amt & rcpt & r0 & _ & _ & _ & _ & _ & _ & _ & _ & _ & [= ->] & _)].
  unfold Sqlite.next_rowid. rewrite Hseq. lia.
Qed.

(** ** A deposit sent twice *)

Section Replay.
Context {num : Type} `{JsNumber num}.
Import Sqlite.

Lemma sq_deposit_replay (s : state num) w z a sg c c' :
  fst (deposits w z a sg c s) = DepositOk →
  ∃ zkp amt sig r t1 t2,
    z = Some zkp ∧ a = Some amt ∧ sg = Some sig
    ∧ zk_proofs s !! zkp = Some r
    ∧ fst (deposits w z a sg c' (snd (deposits w z a sg c s))) = DepositOk
    ∧ total <$> zk_proofs (run s [Deposit w z a sg c; Deposit w z a sg c']) !! zkp
      = Some (js_add (js_add (total r) amt) amt)
    ∧ transactions (run s [Deposit w z a sg c; Deposit w z a sg c'])
      = (transactions s ++ [t1; t2])%list
    ∧ tx_signature t1 = Some sig ∧ tx_signature t2 = Some sig
    ∧ tx_status t1 = CONFIRMED ∧ tx_status t2 = CONFIRMED
    ∧ tx_amount t1 = amt ∧ tx_amount t2 = amt.
Proof.
  intros Hresp. simpl.
  destruct (deposits w z a sg c s) as [resp s1] eqn:Hd. simpl in Hresp. subst resp.
  pose proof Hd as Hd0.
  apply sq_deposits_inv in Hd
    as [[_ (? & ? & [=])]|(wallet & zkp & amt & sig & r & -> & -> & -> & -> & Hr & Hw & Hpos & _ & ->)].
  assert (wallet ≠ "" ∧ zkp ≠ "" ∧ sig ≠ "") as (Hwn & Hzn & Hsn).
  { unfold deposits in Hd0.
    destruct (str_truthy (Some wallet)) eqn:E1; [|simpl in Hd0; discriminate].
    destruct (str_truthy (Some zkp)) eqn:E2; [|simpl in Hd0; discriminate].
    destruct (str_truthy (Some sig)) eqn:E4; [|simpl in Hd0; discriminate].
    repeat split.
    - intros ->. discriminate.
    - intros ->. discriminate.
    - intros ->. discriminate. }
  assert (zk_proofs (deposit_tx wallet zkp amt sig c s) !! zkp = Some (add_total amt r))
    as Hr1.
  { simpl. by rewrite lookup_alter_eq, Hr. }
  rewrite (sq_deposit_accepted _ wallet zkp amt sig c' (add_total amt r)); try done.
  exists zkp, amt, sig, r. eexists _, _.
  split; [done|]. split; [done|]. split; [done|]. split; [done|]. split; [done|].
  split.
  { simpl. rewrite !lookup_alter_eq, Hr. reflexivity. }
  split.
  { simpl. rewrite <- app_assoc. reflexivity. }
  done.
Qed.
End Replay.

(** X13. The SQLite server does not recognise a deposit it has already
    recorded: a deposit request that is accepted is accepted again when it
    is sent a second time, with the same settlement reference, and the
    amount is credited twice, under two CONFIRMED rows that carry the same
    [tx_signature]. *)
Theorem deposit_is_credited_again {num : Type} `{JsNumber num}
    (s : Sqlite.state num) w z a sg c c' :
  fst (Sqlite.deposits w z a sg c s) = Sqlite.DepositOk →
  ∃ zkp amt sig r t1 t2,
    z = Some zkp ∧ a = Some amt ∧ sg = Some sig
    ∧ Sqlite.zk_proofs s !! zkp = Some r
    ∧ fst (Sqlite.deposits w z a sg c' (snd (Sqlite.deposits w z a sg c s)))
      = Sqlite.DepositOk
    ∧ Sqlite.total
        <$> Sqlite.zk_proofs
              (Sqlite.run s [Sqlite.Deposit w z a sg c; Sqlite.Deposit w z a sg c']) !! zkp
      = Some (js_add (js_add (Sqlite.total r) amt) amt)
    ∧ Sqlite.transactions
        (Sqlite.run s [Sqlite.Deposit w z a sg c; Sqlite.Deposit w z a sg c'])
      = (Sqlite.transactions s ++ [t1; t2])%list
    ∧ Sqlite.tx_signature t1 = Some sig ∧ Sqlite.tx_signature t2 = Some sig
    ∧ Sqlite.tx_status t1 = CONFIRMED ∧ Sqlite.tx_status t2 = CONFIRMED
    ∧ Sqlite.tx_amount t1 = amt ∧ Sqlite.tx_amount t2 = amt.
Proof. apply sq_deposit_replay. Qed.

Lemma deposit_is_credited_again_witness :
  Sqlite.total
    <$> Sqlite.zk_proofs
          (Sqlite.run Scenario.sq_funded
             [ Sqlite.Deposit (Some Scenario.walletA) (Some Scenario.zkp) (Some 1%float)
                 (Some "5VERv8") 3000;
               Sqlite.Deposit (Some Scenario.walletA) (Some Scenario.zkp) (Some 1%float)
                 (Some "5VERv8") 4000 ]) !! Scenario.zkp
  = Some 3%float.
Proof.
  destruct (deposit_is_credited_again Scenario.sq_funded
              (Some Scenario.walletA) (Some Scenario.zkp) (Some 1%float)
              (Some "5VERv8") 3000%Z 4000%Z)
    as (zkp & amt & sig & r & t1 & t2 & Hz & Ha & _ & Hr & _ & Htot & _).
  { vm_compute. reflexivity. }
  injection Hz as <-. injection Ha as <-. rewrite Htot.
  assert (Sqlite.zk_proofs Scenario.sq_funded !! Scenario.zkp
          = Some {| Sqlite.wallet_pubkey := Scenario.walletA;
                    Sqlite.note_hash := sha256Hex Scenario.note;
                    Sqlite.total := 1%float; Sqlite.spent := 0%float;
                    Sqlite.created_at := 1000%Z |}) as Hr'
    by (vm_compute; reflexivity).
  rewrite Hr' in Hr. injection Hr as <-. vm_compute. reflexivity.
Defined.

(** ** Rows that are being settled *)

(** X16. On the SQLite server, after any sequence of events, every
    settlement job that is still running has its row in [transactions],
    one row only: a withdrawal, PENDING, with the amount, the identifier
    and the recipient the job will send to.  So a row some job will
    settle is a PENDING withdrawal; deposits and rows that are CONFIRMED
    or FAILED have no job. *)
Theorem jobs_settle_pending_rows {num : Type} `{JsNumber num}
    (pool : bool) (es : list (Sqlite.event num)) :
  Forall
    (λ j, ∃ t, t ∈ Sqlite.transactions (Sqlite.run (Sqlite.init pool) es)
               ∧ Sqlite.job_row j t
               ∧ ∀ t', t' ∈ Sqlite.transactions (Sqlite.run (Sqlite.init pool) es) →
                       Sqlite.tx_id t' = Sqlite.job_txId j → t' = t)
    (Sqlite.jobs (Sqlite.run (Sqlite.init pool) es))
  ∧ Forall
      (λ t, (∃ j, j ∈ Sqlite.jobs (Sqlite.run (Sqlite.init pool) es)
                  ∧ Sqlite.job_txId j = Sqlite.tx_id t) →
            Sqlite.tx_status t = PENDING ∧ Sqlite.tx_type t = WITHDRAW)
      (Sqlite.transactions (Sqlite.run (Sqlite.init pool) es)).
Proof.
  set (s := Sqlite.run (Sqlite.init pool) es).
  assert (Sqlite.consistent s) as Hc.
  { apply sq_consistent_run, sq_consistent_init. }
  pose proof (Sqlite.jobs_pending s Hc) as Hjp. rewrite Forall_forall in Hjp.
  split; apply Forall_forall.
  - intros j Hj. destruct (Hjp j Hj) as (t & Ht & Hjr).
    exists t. split; [done|]. split; [done|]. intros t' Ht' Hid'.
    eapply sq_same_id_same_row; [apply (Sqlite.ids_distinct s Hc)|done|done|].
    destruct Hjr as (-> & _). done.
  - intros t Ht (j & Hj & Hid).
    destruct (Hjp j Hj) as (t' & Ht' & Hid' & Hp & Hty & _).
    assert (t = t') as ->; [|done].
    eapply sq_same_id_same_row; [apply (Sqlite.ids_distinct s Hc)|done|done|congruence].
Qed.

(** ** The newest row comes first *)

Section Freshness.
Context {num : Type} `{JsNumber num}.
Import Sqlite.
Implicit Types (s : state num) (t : tx_row num).

#[local] Instance sq_newer_transitive : Transitive (newer (num:=num)).
Proof. intros a b c. unfold newer. lia. Qed.

#[local] Instance sq_newer_connected : Total (newer (num:=num)).
Proof. intros a b. unfold newer. lia. Qed.

Lemma sq_wallets_step s e :
  map_Forall (λ _ r, wallet_pubkey r ≠ "") (zk_proofs s) →
  map_Forall (λ _ r, wallet_pubkey r ≠ "") (zk_proofs (step s e)).
Proof.
  intros Hs k r Hr.
  destruct (decide (wallet_pubkey r = "")) as [He|]; [|done]. exfalso.
  destruct e as [w a b n c|w z a sg c|z n a rc c|w|txId outcome]; simpl in Hr.
  - destruct (generate w a b n c s) as [resp s'] eqn:Hg.
    apply sq_generate_inv in Hg as [[-> _]|(wallet & -> & Hw & Hfresh & _ & ->)];
      [by apply (Hs k r)|]. simpl in Hr.
    destruct (decide (generateZkProofId a b = k)) as [<-|Hne].
    + rewrite lookup_insert_eq in Hr. injection Hr as <-. done.
    + rewrite lookup_insert_ne in Hr by done. by apply (Hs k r).
  - destruct (deposits w z a sg c s) as [resp s'] eqn:Hd.
    apply sq_deposits_inv in Hd
      as [[-> _]|(wallet & zkp & amt & sig & r0 & _ & _ & _ & _ & _ & _ & _ & _ & ->)];
      [by apply (Hs k r)|]. simpl in Hr.
    destruct (decide (zkp = k)) as [->|Hne].
    + rewrite lookup_alter_eq in Hr.
      destruct (zk_proofs s !! k) as [r1|] eqn:Hr1; [|done]. injection Hr as <-.
      by apply (Hs k r1).
    + rewrite lookup_alter_ne in Hr by done. by apply (Hs k r).
  - destruct (withdrawals z n a rc c s) as [resp s'] eqn:Hd.
    apply sq_withdrawals_inv in Hd
      as [[-> _]|(zkp & nt & amt & rcpt & r0 & _ & _ & _ & _ & _ & _ & _ & _ & _ & _ & ->)];
      [by apply (Hs k r)|]. simpl in Hr.
    destruct (decide (zkp = k)) as [->|Hne].
    + rewrite lookup_alter_eq in Hr.
      destruct (zk_proofs s !! k) as [r1|] eqn:Hr1; [|done]. injection Hr as <-.
      by apply (Hs k r1).
    + rewrite lookup_alter_ne in Hr by done. by apply (Hs k r).
  - rewrite sq_history_state in Hr. by apply (Hs k r).
  - destruct (sq_settle_entries txId outcome s) as [Heq|(j & _ & _ & Heq)];
      rewrite Heq in Hr; [by apply (Hs k r)|].
    destruct (decide (job_zkProofId j = k)) as [Hk|Hne].
    + rewrite Hk, lookup_alter_eq in Hr.
      destruct (zk_proofs s !! k) as [r1|] eqn:Hr1; [|done]. injection Hr as <-.
      by apply (Hs k r1).
    + rewrite lookup_alter_ne in Hr by done. by apply (Hs k r).
Qed.

Lemma sq_wallets_run es s :
  map_Forall (λ _ r, wallet_pubkey r ≠ "") (zk_proofs s) →
  map_Forall (λ _ r, wallet_pubkey r ≠ "") (zk_proofs (run s es)).
Proof.
  revert s. induction es as [|e es IH]; intros s Hs; simpl; [done|].
  by apply IH, sq_wallets_step.
Qed.

(** A row that no other row of the log precedes heads the history of
    its wallet. *)
Lemma sq_history_head s w t :
  w ≠ "" → t ∈ transactions s → tx_wallet_pubkey t = w →
  (∀ t0, t0 ∈ transactions s → newer t0 t → t0 = t) →
  ∃ rest, fst (history (Some w) s) = History (view t :: rest).
Proof.
  intros Hw Ht Hown Hfirst. unfold history. rewrite str_truthy_intro by done. simpl.
  set (rows := merge_sort newer _).
  assert (rows ≡ₚ List.filter (of_wallet w) (transactions s)) as Hperm
    by apply merge_sort_Permutation.
  assert (StronglySorted newer rows) as Hsorted
    by apply (StronglySorted_merge_sort _).
  assert (t ∈ rows) as Hin.
  { rewrite Hperm. apply list_elem_of_In, filter_In. split; [by apply list_elem_of_In|].
    unfold of_wallet. by apply String.eqb_eq. }
  clearbody rows. destruct rows as [|h rest]; [by apply elem_of_nil in Hin|].
  assert (h = t) as ->; [|by eexists].
  apply elem_of_cons in Hin as [->|Hin]; [done|].
  apply (Hfirst h).
  - assert (h ∈ List.filter (of_wallet w) (transactions s)) as Hh.
    { rewrite <- Hperm. apply elem_of_cons. by left. }
    apply list_elem_of_In, filter_In in Hh as [Hh _]. by apply list_elem_of_In.
  - apply StronglySorted_inv in Hsorted as [_ Hall].
    rewrite Forall_forall in Hall. by apply Hall.
Qed.

(** The row an event appends, at a time no earlier than the rows logged
    so far (in whole seconds), is preceded by none. *)
Lemma sq_appended_first (l : list (tx_row num)) t c :
  map tx_id l = map N.of_nat (seq 1 (length l)) →
  tx_id t = N.of_nat (S (length l)) → tx_created_at t = c →
  Forall (λ t0, (datetime (tx_created_at t0) <= datetime c)%Z) l →
  ∀ t0, t0 ∈ (l ++ [t])%list → newer t0 t → t0 = t.
Proof.
  intros Hids Hid Hc Hclock t0 Hin Hnew.
  apply elem_of_app in Hin as [Hin|Hin];
    [|apply list_elem_of_singleton in Hin; done]. exfalso.
  rewrite Forall_forall in Hclock. specialize (Hclock t0 Hin).
  assert (tx_id t0 ∈ map tx_id l) as Hmem by (apply list_elem_of_fmap; eauto).
  rewrite Hids in Hmem. apply list_elem_of_fmap in Hmem as (i & Hi & Hseq).
  apply list_elem_of_In, in_seq in Hseq.
  unfold newer in Hnew. rewrite Hc in Hnew. lia.
Qed.
End Freshness.

(** X17. On the SQLite server, a withdrawal or a deposit that is accepted
    at a time no earlier (in whole seconds) than the rows logged so far
    shows at once at the head of GET /api/history of the wallet of its
    entry: the withdrawal as a PENDING row under the id it was answered
    with, the deposit as a CONFIRMED row with its settlement reference. *)
Theorem new_row_heads_history {num : Type} `{JsNumber num}
    (pool : bool) (es : list (Sqlite.event num)) :
  (∀ z n a rc c txId,
      fst (Sqlite.withdrawals z n a rc c (Sqlite.run (Sqlite.init pool) es))
      = Sqlite.WithdrawPending txId →
      Forall (λ t0, (Sqlite.datetime (Sqlite.tx_created_at t0) <= Sqlite.datetime c)%Z)
        (Sqlite.transactions (Sqlite.run (Sqlite.init pool) es)) →
      ∃ t rest,
        fst (Sqlite.history (Some (Sqlite.tx_wallet_pubkey t))
               (snd (Sqlite.withdrawals z n a rc c (Sqlite.run (Sqlite.init pool) es))))
        = Sqlite.History (Sqlite.view t :: rest)
        ∧ Sqlite.tx_id t = txId ∧ Sqlite.tx_type t = WITHDRAW
        ∧ Sqlite.tx_status t = PENDING ∧ Some (Sqlite.tx_zk_proof_id t) = z)
  ∧ (∀ w z a sg c,
      fst (Sqlite.deposits w z a sg c (Sqlite.run (Sqlite.init pool) es))
      = Sqlite.DepositOk →
      Forall (λ t0, (Sqlite.datetime (Sqlite.tx_created_at t0) <= Sqlite.datetime c)%Z)
        (Sqlite.transactions (Sqlite.run (Sqlite.init pool) es)) →
      ∃ t rest,
        fst (Sqlite.history w
               (snd (Sqlite.deposits w z a sg c (Sqlite.run (Sqlite.init pool) es))))
        = Sqlite.History (Sqlite.view t :: rest)
        ∧ Sqlite.tx_type t = DEPOSIT ∧ Sqlite.tx_status t = CONFIRMED
        ∧ Sqlite.tx_signature t = sg ∧ Some (Sqlite.tx_zk_proof_id t) = z).
Proof.
  set (s := Sqlite.run (Sqlite.init pool) es).
  destruct (sq_numbered_run es (Sqlite.init pool)) as [Hids Hseq]; [done|].
  fold s in Hids, Hseq.
  assert (map_Forall (λ _ r, Sqlite.wallet_pubkey r ≠ "") (Sqlite.zk_proofs s)) as Hwal.
  { apply sq_wallets_run. intros k r Hr. simpl in Hr. by rewrite lookup_empty in Hr. }
  split.
  - intros z n a rc c txId Hresp Hclock.
    destruct (Sqlite.withdrawals z n a rc c s) as [resp s'] eqn:Hd.
    simpl in Hresp |- *. subst resp.
    apply sq_withdrawals_inv in Hd
      as [[_ (? & ? & [=])]|(zkp & nt & amt & rcpt & r & -> & _ & _ & _ & _ & Hr & _ & _ & _ & [= ->] & Hs')].
    set (t := {| Sqlite.tx_id := Sqlite.next_rowid s;
                 Sqlite.tx_wallet_pubkey := Sqlite.wallet_pubkey r;
                 Sqlite.tx_zk_proof_id := zkp; Sqlite.tx_type := WITHDRAW;
                 Sqlite.tx_amount := amt; Sqlite.tx_recipient := Some rcpt;
                 Sqlite.tx_signature := None; Sqlite.tx_status := PENDING;
                 Sqlite.tx_created_at := c |}).
    assert (Sqlite.transactions s' = (Sqlite.transactions s ++ [t])%list) as Hrows
      by (rewrite Hs'; reflexivity).
    destruct (sq_history_head s' (Sqlite.wallet_pubkey r) t) as [rest Hrest].
    + by apply (Hwal zkp r).
    + rewrite Hrows. apply elem_of_app. right. by apply list_elem_of_singleton.
    + reflexivity.
    + rewrite Hrows. apply (sq_appended_first _ t c); try done.
      simpl. unfold Sqlite.next_rowid. rewrite Hseq. lia.
    + exists t, rest. split; [exact Hrest|]. done.
  - intros w z a sg c Hresp Hclock.
    destruct (Sqlite.deposits w z a sg c s) as [resp s'] eqn:Hd.
    simpl in Hresp |- *. subst resp.
    apply sq_deposits_inv in Hd
      as [[_ (? & ? & [=])]|(wallet & zkp & amt & sig & r & -> & -> & _ & -> & Hr & Hown & _ & _ & Hs')].
    set (t := {| Sqlite.tx_id := Sqlite.next_rowid s;
                 Sqlite.tx_wallet_pubkey := wallet;
                 Sqlite.tx_zk_proof_id := zkp; Sqlite.tx_type := DEPOSIT;
                 Sqlite.tx_amount := amt; Sqlite.tx_recipient := Some "shielded_pool";
                 Sqlite.tx_signature := Some sig; Sqlite.tx_status := CONFIRMED;
                 Sqlite.tx_created_at := c |}).
    assert (Sqlite.transactions s' = (Sqlite.transactions s ++ [t])%list) as Hrows
      by (rewrite Hs'; reflexivity).
    destruct (sq_history_head s' wallet t) as [rest Hrest].
    + rewrite <- Hown. by apply (Hwal zkp r).
    + rewrite Hrows. apply elem_of_app. right. by apply list_elem_of_singleton.
    + reflexivity.
    + rewrite Hrows. apply (sq_appended_first _ t c); try done.
      simpl. unfold Sqlite.next_rowid. rewrite Hseq. lia.
    + exists t, rest. split; [exact Hrest|]. done.
Qed.

Lemma new_row_heads_history_witness :
  ∃ t rest,
    fst (Sqlite.history (Some (Sqlite.tx_wallet_pubkey t))
           (snd (Sqlite.withdrawals (Some Scenario.zkp) (Some Scenario.note)
                   (Some 0.5%float) (Some Scenario.recipient) 3000
                   (Sqlite.run (Sqlite.init true) Scenario.funded))))
    = Sqlite.History (Sqlite.view t :: rest)
    ∧ Sqlite.tx_id t = 2%N ∧ Sqlite.tx_type t = WITHDRAW
    ∧ Sqlite.tx_status t = PENDING ∧ Some (Sqlite.tx_zk_proof_id t) = Some Scenario.zkp.
Proof.
  assert (∃ l, Sqlite.transactions (Sqlite.run (Sqlite.init (num:=float) true) Scenario.funded) = l
               ∧ Forall (λ t0, (Sqlite.datetime (Sqlite.tx_created_at t0)
                                <= Sqlite.datetime 3000)%Z) l) as (l & Hl & Hclock).
  { eexists. split; [vm_compute; reflexivity|].
    repeat constructor. vm_compute. discriminate. }
  rewrite <- Hl in Hclock.
  apply (proj1 (new_row_heads_history true Scenario.funded)
           (Some Scenario.zkp) (Some Scenario.note) (Some 0.5%float)
           (Some Scenario.recipient) 3000%Z 2%N); [|exact Hclock].
  vm_compute. reflexivity.
Defined.

(** ** A withdrawal on the PostgreSQL server *)

Section PgWithdrawal.
Context {num numeric : Type} `{JsNumber num} `{PgNumeric num numeric}.
Import Pg.

End PgWithdrawal.



(** ** A new entry and its note *)

Section NewEntry.
Context {num numeric : Type} `{JsNumber num} `{PgNumeric num numeric}.

Lemma sq_generated_opens (s s' : Sqlite.state num) w a b n c id note :
  Sqlite.generate w a b n c s = (Sqlite.Generated id note, s') →
  Sqlite.zk_proofs s !! id = None
  ∧ (∃ r, Sqlite.zk_proofs s' !! id = Some r
          ∧ Sqlite.note_hash r = sha256Hex note ∧ Some (Sqlite.wallet_pubkey r) = w
          ∧ Sqlite.total r = js_zero ∧ Sqlite.spent r = js_zero
          ∧ Sqlite.created_at r = c)
  ∧ (∀ k, k ≠ id → Sqlite.zk_proofs s' !! k = Sqlite.zk_proofs s !! k)
  ∧ Sqlite.transactions s' = Sqlite.transactions s
  ∧ ∀ amt rcpt c' code m,
      fst (Sqlite.withdrawals (Some id) (Some note) amt rcpt c' s') = Sqlite.Error code m →
      code ≠ 403 ∧ code ≠ 404.
Proof.
  intros Hg.
  apply sq_generate_inv in Hg
    as [[_ (? & ? & [=])]|(wallet & -> & Hw & Hfresh & [= -> ->] & ->)].
  split; [done|]. split; [|split; [|split]].
  - eexists. simpl. rewrite lookup_insert_eq. split; [reflexivity|]. done.
  - intros k Hk. simpl. by rewrite lookup_insert_ne.
  - reflexivity.
  - intros amt rcpt c' code m. unfold Sqlite.withdrawals. simpl.
    rewrite lookup_insert_eq. simpl. rewrite String.eqb_refl. simpl.
    destruct amt as [amt|], rcpt as [rcpt|]; try (intros [= <- _]; done).
    destruct (_ || _); [intros [= <- _]; done|].
    destruct (negb _); [intros [= <- _]; done|].
    destruct (negb _); [intros [= <- _]; done|].
    destruct (js_gt _ _); [intros [= <- _]; done|]. discriminate.
Qed.

Lemma pg_generated_opens (s s' : Pg.state numeric) w n c id note :
  Pg.generate (num:=num) w n c s = (Pg.Generated id note, s') →
  Pg.zk_proofs s !! id = None →
  (∃ r, Pg.zk_proofs s' !! id = Some r
        ∧ Pg.note_hash r = sha256Hex note ∧ Some (Pg.wallet_pubkey r) = w
        ∧ Pg.total_amount r = pg_zero ∧ Pg.spent_amount r = pg_zero
        ∧ Pg.created_at r = c)
  ∧ (∀ k, k ≠ id → Pg.zk_proofs s' !! k = Pg.zk_proofs s !! k)
  ∧ Pg.zk_transfers s' = Pg.zk_transfers s
  ∧ ∀ (amt : option num) rcpt sg c' code m,
      fst (Pg.withdrawals (Some id) (Some note) amt rcpt sg c' s') = Pg.Error code m →
      m ≠ "invalid note for this zk_proof_id" ∧ code ≠ 404.
Proof.
  intros Hg Hfresh.
  apply pg_generate_inv in Hg
    as [[_ (? & ? & [=])]|(wallet & -> & Hw & [= -> ->] & [[[? Hex] _]|[_ ->]])];
    [congruence|].
  split; [|split; [|split]].
  - eexists. simpl. rewrite lookup_insert_eq. split; [reflexivity|]. done.
  - intros k Hk. simpl. by rewrite lookup_insert_ne.
  - reflexivity.
  - intros amt rcpt sg c' code m. unfold Pg.withdrawals. simpl.
    rewrite lookup_insert_eq. simpl. rewrite String.eqb_refl. simpl.
    destruct rcpt as [rcpt|], amt as [amt|]; try (intros [= <- <-]; done).
    destruct (_ || _); [intros [= <- <-]; done|].
    destruct (js_lt _ _); [intros [= <- <-]; done|].
    destruct (pg_add_store _ _); [|intros [= <- <-]; done].
    destruct (pg_store _); [|intros [= <- <-]; done]. discriminate.
Qed.
End NewEntry.

(** X19. The identifier and the note POST /api/zkproofs/generate answers
    with open the entry it has just stored: the entry is new, belongs to
    the wallet of the request, holds the SHA-256 of the note and zero
    accumulators, nothing else has changed, and a withdrawal request that
    carries this identifier and this note is never refused as unknown
    (404) or for its note.  (On the PostgreSQL server this needs the
    identifier not to have been there before.) *)
Theorem generated_note_opens_entry :
  (∀ (num : Type) (N : JsNumber num) (s s' : Sqlite.state num) w a b n c id note,
      Sqlite.generate w a b n c s = (Sqlite.Generated id note, s') →
      Sqlite.zk_proofs s !! id = None
      ∧ (∃ r, Sqlite.zk_proofs s' !! id = Some r
              ∧ Sqlite.note_hash r = sha256Hex note ∧ Some (Sqlite.wallet_pubkey r) = w
              ∧ Sqlite.total r = js_zero ∧ Sqlite.spent r = js_zero
              ∧ Sqlite.created_at r = c)
      ∧ (∀ k, k ≠ id → Sqlite.zk_proofs s' !! k = Sqlite.zk_proofs s !! k)
      ∧ Sqlite.transactions s' = Sqlite.transactions s
      ∧ ∀ amt rcpt c' code m,
          fst (Sqlite.withdrawals (Some id) (Some note) amt rcpt c' s')
          = Sqlite.Error code m →
          code ≠ 403 ∧ code ≠ 404)
  ∧ (∀ (num numeric : Type) (N : JsNumber num) (P : PgNumeric num numeric)
       (s s' : Pg.state numeric) w n c id note,
      Pg.generate (num:=num) w n c s = (Pg.Generated id note, s') →
      Pg.zk_proofs s !! id = None →
      (∃ r, Pg.zk_proofs s' !! id = Some r
            ∧ Pg.note_hash r = sha256Hex note ∧ Some (Pg.wallet_pubkey r) = w
            ∧ Pg.total_amount r = pg_zero ∧ Pg.spent_amount r = pg_zero
            ∧ Pg.created_at r = c)
      ∧ (∀ k, k ≠ id → Pg.zk_proofs s' !! k = Pg.zk_proofs s !! k)
      ∧ Pg.zk_transfers s' = Pg.zk_transfers s
      ∧ ∀ (amt : option num) rcpt sg c' code m,
          fst (Pg.withdrawals (Some id) (Some note) amt rcpt sg c' s') = Pg.Error code m →
          m ≠ "invalid note for this zk_proof_id" ∧ code ≠ 404).
Proof.
  split.
  - intros. by eapply sq_generated_opens.
  - intros. by eapply pg_generated_opens.
Qed.

Lemma generated_note_opens_entry_witness :
  ∃ r, Sqlite.zk_proofs
         (Sqlite.step (Sqlite.init (num:=float) true)
            (Sqlite.Generate (Some Scenario.walletA) Scenario.partA Scenario.partB
               Scenario.noteBytes 1000)) !! Scenario.zkp = Some r
       ∧ Sqlite.total r = 0%float ∧ Sqlite.spent r = 0%float.
Proof.
  assert (Sqlite.generate (num:=float) (Some Scenario.walletA) Scenario.partA
            Scenario.partB Scenario.noteBytes 1000 (Sqlite.init true)
          = (Sqlite.Generated Scenario.zkp Scenario.note,
             Sqlite.step (Sqlite.init true)
               (Sqlite.Generate (Some Scenario.walletA) Scenario.partA Scenario.partB
                  Scenario.noteBytes 1000))) as Hg
    by (vm_compute; reflexivity).
  destruct (proj1 generated_note_opens_entry float Float64.number _ _ _ _ _ _ _ _ _ Hg)
    as (_ & (r & Hr & _ & _ & Ht & Hs & _) & _).
  exists r. split; [exact Hr|]. split; [exact Ht|exact Hs].
Defined.

(** ** The list of the entries of a wallet *)

Section Listing.
Context {num numeric : Type} `{JsNumber num} `{PgNumeric num numeric}.

#[local] Instance sq_later_transitive : Transitive (SqliteRoutes.later (num:=num)).
Proof. intros a b c. unfold SqliteRoutes.later. lia. Qed.

#[local] Instance sq_later_connected : Total (SqliteRoutes.later (num:=num)).
Proof. intros a b. unfold SqliteRoutes.later. lia. Qed.

#[local] Instance pg_later_transitive : Transitive (PgRoutes.later (numeric:=numeric)).
Proof. intros a b c. unfold PgRoutes.later. lia. Qed.

#[local] Instance pg_later_connected : Total (PgRoutes.later (numeric:=numeric)).
Proof. intros a b. unfold PgRoutes.later. lia. Qed.

Lemma filter_keys_distinct {A} (p : string * A → bool) (l : list (string * A)) :
  NoDup (map fst l) → NoDup (map fst (List.filter p l)).
Proof.
  induction l as [|x l IH]; simpl; [done|]. intros Hnd.
  apply NoDup_cons in Hnd as [Hx Hnd]. destruct (p x); simpl; [|by apply IH].
  apply NoDup_cons. split; [|by apply IH]. intros Hin. apply Hx.
  apply list_elem_of_fmap in Hin as (y & Hy & Hin).
  apply list_elem_of_In, filter_In in Hin as [Hin _].
  apply list_elem_of_fmap. exists y. split; [done|]. by apply list_elem_of_In.
Qed.

(** The rows a sort of the owned rows of a table returns. *)
Lemma listed_rows {A} (R : relation (string * A)) {HD : ∀ x y, Decision (R x y)}
    `{!Transitive R} `{!Total R} (p : string * A → bool) (m : gmap string A) :
  let rows := merge_sort R (List.filter p (map_to_list m)) in
  NoDup (map fst rows)
  ∧ (∀ k r, (k, r) ∈ rows ↔ m !! k = Some r ∧ p (k, r) = true)
  ∧ StronglySorted R rows.
Proof.
  intros rows.
  assert (rows ≡ₚ List.filter p (map_to_list m)) as Hperm
    by apply merge_sort_Permutation.
  split; [|split].
  - rewrite Hperm. apply filter_keys_distinct, NoDup_fst_map_to_list.
  - intros k r. rewrite Hperm. split.
    + intros Hin. apply list_elem_of_In, filter_In in Hin as [Hin Hp].
      split; [|done]. by apply elem_of_map_to_list, list_elem_of_In.
    + intros [Hr Hp]. apply list_elem_of_In, filter_In. split; [|done].
      by apply list_elem_of_In, elem_of_map_to_list.
  - apply (StronglySorted_merge_sort _).
Qed.

Lemma sq_zkproofs_rows (s : Sqlite.state num) w :
  w ≠ "" →
  ∃ rows,
    SqliteRoutes.zkproofs (Some w) s
    = (SqliteRoutes.Proofs (map SqliteRoutes.to_view rows), s)
    ∧ NoDup (map fst rows)
    ∧ (∀ k r, (k, r) ∈ rows
              ↔ Sqlite.zk_proofs s !! k = Some r ∧ Sqlite.wallet_pubkey r = w)
    ∧ StronglySorted SqliteRoutes.later rows.
Proof.
  intros Hw. unfold SqliteRoutes.zkproofs. rewrite str_truthy_intro by done. simpl.
  eexists. split; [reflexivity|].
  destruct (listed_rows SqliteRoutes.later (HD := SqliteRoutes.later_dec)
              (SqliteRoutes.owned_by w) (Sqlite.zk_proofs s))
    as (Hnd & Hmem & Hsorted).
  split; [done|]. split; [|done].
  intros k r. rewrite Hmem. unfold SqliteRoutes.owned_by. simpl.
  by rewrite String.eqb_eq.
Qed.

Lemma pg_zkproofs_rows (s : Pg.state numeric) w :
  w ≠ "" →
  ∃ rows,
    PgRoutes.zkproofs (num:=num) (Some w) s
    = (PgRoutes.Proofs (map PgRoutes.to_view rows), s)
    ∧ NoDup (map fst rows)
    ∧ (∀ k r, (k, r) ∈ rows
              ↔ Pg.zk_proofs s !! k = Some r ∧ Pg.wallet_pubkey r = w)
    ∧ StronglySorted PgRoutes.later rows.
Proof.
  intros Hw. unfold PgRoutes.zkproofs. rewrite str_truthy_intro by done. simpl.
  eexists. split; [reflexivity|].
  destruct (listed_rows PgRoutes.later (HD := PgRoutes.later_dec)
              (PgRoutes.owned_by w) (Pg.zk_proofs s))
    as (Hnd & Hmem & Hsorted).
  split; [done|]. split; [|done].
  intros k r. rewrite Hmem. unfold PgRoutes.owned_by. simpl.
  by rewrite String.eqb_eq.
Qed.
End Listing.

(** X20. GET /api/zkproofs of the SQLite server never writes.  Without a
    wallet (absent or empty) it answers 400; for a wallet it lists the
    entries that wallet owns, all of them and no entry of another wallet,
    each once, the newest first by creation time in whole seconds, each
    with [balance = total - spent]. *)
Theorem sq_zkproofs_lists_owned {num : Type} `{JsNumber num} (s : Sqlite.state num) :
  SqliteRoutes.zkproofs None s = (SqliteRoutes.Refused 400 "wallet is required", s)
  ∧ SqliteRoutes.zkproofs (Some "") s = (SqliteRoutes.Refused 400 "wallet is required", s)
  ∧ ∀ w, w ≠ "" →
      ∃ rows,
        SqliteRoutes.zkproofs (Some w) s
        = (SqliteRoutes.Proofs (map SqliteRoutes.to_view rows), s)
        ∧ NoDup (map fst rows)
        ∧ (∀ k r, (k, r) ∈ rows
                  ↔ Sqlite.zk_proofs s !! k = Some r ∧ Sqlite.wallet_pubkey r = w)
        ∧ StronglySorted SqliteRoutes.later rows
        ∧ Forall (λ v, SqliteRoutes.v_balance v
                       = js_sub (SqliteRoutes.v_total v) (SqliteRoutes.v_spent v)
                       ∧ SqliteRoutes.v_walletPubkey v = w)
            (map SqliteRoutes.to_view rows).
Proof.
  split; [done|]. split; [done|]. intros w Hw.
  destruct (sq_zkproofs_rows s w Hw) as (rows & Heq & Hnd & Hmem & Hsorted).
  exists rows. split; [done|]. split; [done|]. split; [done|]. split; [done|].
  rewrite Forall_fmap. apply Forall_forall. intros [k r] Hin. simpl.
  split; [done|]. by apply Hmem in Hin as [_ Hown].
Qed.


Section AnswersAndListing.
Context {num numeric : Type} `{JsNumber num} `{PgNumeric num numeric}.

Lemma pg_listed_after (s : Pg.state numeric) zkp r :
  Pg.zk_proofs s !! zkp = Some r → Pg.wallet_pubkey r ≠ "" →
  ∃ proofs,
    fst (PgRoutes.zkproofs (num:=num) (Some (Pg.wallet_pubkey r)) s)
    = PgRoutes.Proofs proofs
    ∧ PgRoutes.to_view (zkp, r) ∈ proofs.
Proof.
  intros Hr Hw.
  destruct (pg_zkproofs_rows (num:=num) s (Pg.wallet_pubkey r) Hw)
    as (rows & Heq & _ & Hmem & _).
  rewrite Heq. eexists. split; [reflexivity|].
  apply list_elem_of_fmap. exists (zkp, r). split; [done|]. by apply Hmem.
Qed.
End AnswersAndListing.

(** X23. On the PostgreSQL server, in any state it reaches, the total,
    spent and balance a deposit or a withdrawal is answered with are the
    ones GET /api/zkproofs lists for that identifier right after, under
    the wallet that owns the entry. *)
Theorem pg_answer_is_what_is_listed {num numeric : Type} `{JsNumber num}
    `{PgNumeric num numeric} (es : list (Pg.event num)) :
  (∀ w z a sg c zkp balance total spent s',
      Pg.deposits w z a sg c (Pg.run (numeric:=numeric) Pg.init es)
      = (Pg.Ok zkp balance total spent, s') →
      ∃ createdAt proofs,
        fst (PgRoutes.zkproofs (num:=num) w s') = PgRoutes.Proofs proofs
        ∧ {| PgRoutes.v_zkProofId := zkp; PgRoutes.v_total := total;
             PgRoutes.v_spent := spent; PgRoutes.v_balance := balance;
             PgRoutes.v_createdAt := createdAt |} ∈ proofs)
  ∧ (∀ z n a rc sg c zkp balance total spent s',
      Pg.withdrawals z n a rc sg c (Pg.run (numeric:=numeric) Pg.init es)
      = (Pg.Ok zkp balance total spent, s') →
      ∃ owner createdAt proofs,
        fst (PgRoutes.zkproofs (num:=num) (Some owner) s') = PgRoutes.Proofs proofs
        ∧ {| PgRoutes.v_zkProofId := zkp; PgRoutes.v_total := total;
             PgRoutes.v_spent := spent; PgRoutes.v_balance := balance;
             PgRoutes.v_createdAt := createdAt |} ∈ proofs).
Proof.
  set (s := Pg.run Pg.init es).
  assert (map_Forall (λ k r, k = Pg.commitment (Pg.wallet_pubkey r) (Pg.note_hash r)
                             ∧ Pg.wallet_pubkey r ≠ "") (Pg.zk_proofs s)) as Hcom.
  { apply pg_committed_run. intros k r Hr. simpl in Hr. by rewrite lookup_empty in Hr. }
  split.
  - intros w z a sg c zkp balance total spent s' Hd.
    apply pg_deposits_inv in Hd
      as [[_ (? & ? & [=])]|(wallet & zkp' & amt & r & total' & stored & -> & _ & _ & Hr & Hown & _ & _ & _ & _ & Hresp & ->)].
    unfold Pg.ok_response in Hresp. injection Hresp as -> -> -> ->.
    destruct (pg_listed_after (num:=num)
                {| Pg.zk_proofs := <[zkp' := Pg.with_total total' r]> (Pg.zk_proofs s);
                   Pg.zk_transfers :=
                     (Pg.zk_transfers s ++
                        [ {| Pg.tr_zk_proof_id := zkp'; Pg.tr_wallet_pubkey := wallet;
                             Pg.tr_direction := DEPOSIT; Pg.tr_amount := stored;
                             Pg.tr_recipient := None;
                             Pg.tr_tx_signature := Pg.or_null sg;
                             Pg.tr_created_at := c |} ])%list |}
                zkp' (Pg.with_total total' r)) as (proofs & Hl & Hin).
    + simpl. by rewrite lookup_insert_eq.
    + simpl. by apply (Hcom zkp' r).
    + simpl in Hl. rewrite Hown in Hl. exists (Pg.created_at r), proofs. done.
  - intros z n a rc sg c zkp balance total spent s' Hd.
    apply pg_withdrawals_inv in Hd
      as [[_ (? & ? & [=])]|(zkp' & nt & amt & rcpt & r & spent' & stored & _ & _ & _ & _ & Hr & _ & _ & _ & _ & _ & _ & Hresp & ->)].
    unfold Pg.ok_response in Hresp. injection Hresp as -> -> -> ->.
    destruct (pg_listed_after (num:=num)
                {| Pg.zk_proofs := <[zkp' := Pg.with_spent spent' r]> (Pg.zk_proofs s);
                   Pg.zk_transfers :=
                     (Pg.zk_transfers s ++
                        [ {| Pg.tr_zk_proof_id := zkp';
                             Pg.tr_wallet_pubkey := Pg.wallet_pubkey r;
                             Pg.tr_direction := WITHDRAW; Pg.tr_amount := stored;
                             Pg.tr_recipient := Some rcpt;
                             Pg.tr_tx_signature := Pg.or_null sg;
                             Pg.tr_created_at := c |} ])%list |}
                zkp' (Pg.with_spent spent' r)) as (proofs & Hl & Hin).
    + simpl. by rewrite lookup_insert_eq.
    + simpl. by apply (Hcom zkp' r).
    + simpl in Hl. exists (Pg.wallet_pubkey r), (Pg.created_at r), proofs. done.
Qed.

(** ** Origins and the pool address *)

(** X24. The origins the CORS check of the PostgreSQL server admits are
    admitted by the SQLite server too (which also admits the same two
    sites written with a final slash, and two local origins); both admit
    a request that names no origin, and refuse every other origin with an
    error. *)
Theorem cors_origins :
  (∀ o, PgRoutes.origin o = Allow → SqliteRoutes.origin o = Allow)
  ∧ PgRoutes.origin None = Allow ∧ SqliteRoutes.origin None = Allow
  ∧ PgRoutes.origin (Some "") = Allow ∧ SqliteRoutes.origin (Some "") = Allow
  ∧ (∀ v, v ≠ "" → v ∉ PgRoutes.allowedOrigins →
          PgRoutes.origin (Some v) = Deny "Not allowed by CORS")
  ∧ (∀ v, v ≠ "" → v ∉ SqliteRoutes.allowedOrigins →
          SqliteRoutes.origin (Some v) = Deny ("Not allowed by CORS: " ++ v))
  ∧ (∀ v, v ∈ PgRoutes.allowedOrigins → SqliteRoutes.origin (Some (v ++ "/")) = Allow).
Proof.
  assert (∀ v (l : list string), existsb (String.eqb v) l = true ↔ v ∈ l) as Hmem.
  { intros v l. rewrite existsb_exists. split.
    - intros (x & Hx & Heq). apply String.eqb_eq in Heq as ->. by apply list_elem_of_In.
    - intros Hin. exists v. split; [by apply list_elem_of_In|apply String.eqb_refl]. }
  split; [|split; [done|split; [done|split; [done|split; [done|split; [|split]]]]]].
  - intros [v|]; [|done]. unfold PgRoutes.origin, SqliteRoutes.origin.
    destruct (negb (str_truthy (Some v))); [done|].
    destruct (existsb (String.eqb v) PgRoutes.allowedOrigins) eqn:Hpg; [|done].
    intros _. apply Hmem in Hpg.
    assert (v ∈ SqliteRoutes.allowedOrigins) as Hsq.
    { unfold PgRoutes.allowedOrigins in Hpg. unfold SqliteRoutes.allowedOrigins.
      apply elem_of_cons in Hpg as [->|Hpg]; [by left|].
      apply list_elem_of_singleton in Hpg as ->. do 2 right. by left. }
    apply Hmem in Hsq. by rewrite Hsq.
  - intros v Hv Hnot. unfold PgRoutes.origin. rewrite str_truthy_intro by done.
    cbn [negb]. destruct (existsb _ _) eqn:He; [|done]. by apply Hmem in He.
  - intros v Hv Hnot. unfold SqliteRoutes.origin. rewrite str_truthy_intro by done.
    cbn [negb]. destruct (existsb _ _) eqn:He; [|done]. by apply Hmem in He.
  - intros v Hin. unfold PgRoutes.allowedOrigins in Hin.
    apply elem_of_cons in Hin as [->|Hin]; [reflexivity|].
    apply list_elem_of_singleton in Hin as ->. reflexivity.
Qed.

(** X25. [POOL_ADDRESS] of the SQLite server is never empty: it is
    [POOL_PUBKEY] when that is set and not empty, else the address of the
    pool key pair when one was loaded, else the built-in address; so
    /health reports an address even on a server that cannot withdraw, and
    reports [POOL_PUBKEY] whatever key pair signs the transfers. *)
Theorem pool_address_fallback (POOL_PUBKEY publicKey : option string) :
  SqliteRoutes.POOL_ADDRESS POOL_PUBKEY publicKey ≠ ""
  ∧ (∀ v, POOL_PUBKEY = Some v → v ≠ "" →
          SqliteRoutes.POOL_ADDRESS POOL_PUBKEY publicKey = v)
  ∧ (str_truthy POOL_PUBKEY = false →
     ∀ v, publicKey = Some v → v ≠ "" →
          SqliteRoutes.POOL_ADDRESS POOL_PUBKEY publicKey = v)
  ∧ (str_truthy POOL_PUBKEY = false → str_truthy publicKey = false →
     SqliteRoutes.POOL_ADDRESS POOL_PUBKEY publicKey
     = "8hGDXBJqpCZvWaDcbvXykRSb1bKbbJ5Ji4c85ubYvkaA").
Proof.
  unfold SqliteRoutes.POOL_ADDRESS, str_or, str_truthy.
  split; [|split; [|split]].
  - destruct POOL_PUBKEY as [e|], publicKey as [k|]; simpl;
      repeat (match goal with
              | |- context [String.eqb ?x ""] => destruct (String.eqb_spec x "")
              end; simpl); done.
  - intros v -> Hv. simpl. destruct (String.eqb_spec v ""); [done|]. simpl.
    by destruct (String.eqb_spec v "").
  - intros He v -> Hv. rewrite He. simpl. destruct (String.eqb_spec v ""); [done|].
    simpl. by destruct (String.eqb_spec v "").
  - intros He Hk. by rewrite He, Hk.
Qed.

(** ** The transfer out of the pool *)

Section Transfer.
Context {num : Type} `{JsNumber num} `{Lamports num}.
Import Sqlite Pool.

Lemma sq_pool_key_run es pool : poolKeypair (run (init (num:=num) pool) es) = pool.
Proof.
  assert (∀ s e, poolKeypair (step (num:=num) s e) = poolKeypair s) as Hstep.
  { intros s e. destruct e as [w a b n c|w z a sg c|z n a rc c|w|txId outcome]; simpl.
    - destruct (generate w a b n c s) as [resp s'] eqn:Hg.
      by apply sq_generate_inv in Hg as [[-> _]|(wallet & -> & _ & Hfresh & _ & ->)].
    - destruct (deposits w z a sg c s) as [resp s'] eqn:Hd.
      by apply sq_deposits_inv in Hd
        as [[-> _]|(wallet & zkp & amt & sig & r0 & _ & _ & _ & _ & _ & _ & _ & _ & ->)].
    - destruct (withdrawals z n a rc c s) as [resp s'] eqn:Hd.
      by apply sq_withdrawals_inv in Hd
        as [[-> _]|(zkp & nt & amt & rcpt & r0 & _ & _ & _ & _ & _ & _ & _ & _ & _ & _ & ->)].
    - by rewrite sq_history_state.
    - by destruct (sq_settle_rest txId outcome s) as (_ & -> & _). }
  change pool with (poolKeypair (init (num:=num) pool)) at 2.
  generalize (init (num:=num) pool). induction es as [|e es IH]; intros s; simpl; [done|].
  by rewrite IH, Hstep.
Qed.

(** A job runs only on a server that holds the pool key. *)
Lemma sq_job_needs_key es pool txId j :
  find (is_job txId) (jobs (run (init (num:=num) pool) es)) = Some j →
  poolKeypair (run (init (num:=num) pool) es) = true.
Proof.
  intros Hf. rewrite sq_pool_key_run. destruct pool; [done|]. exfalso.
  destruct (sq_idle_run es (init (num:=num) false)) as (_ & Hjobs & _).
  { repeat split; first [done | constructor]. }
  by rewrite Hjobs in Hf.
Qed.

Lemma sendFromPool_sent (connection : web3) rcpt (amt : num) :
  sendFromPool true connection rcpt amt
  = if PublicKey connection rcpt
    then match getLatestBlockhash connection with
         | Some blockhash =>
             sendRawTransaction connection blockhash rcpt (lamports_of amt)
         | None => None
         end
    else None.
Proof.
  unfold sendFromPool. simpl. destruct (PublicKey connection rcpt); [|done]. simpl.
  destruct (getLatestBlockhash connection) as [bh|]; [|done].
  destruct (sendRawTransaction connection bh rcpt (lamports_of amt)) as [sig|]; [|done].
  by destruct (confirmTransaction connection sig bh).
Qed.
End Transfer.

Import Pool.

(** X26. The settlement job of a withdrawal (SQLite server), in any state
    the server reaches: [sendFromPool] returns the signature exactly when
    the recipient address parses, a blockhash is obtained and
    [sendRawTransaction] returns one; whether [confirmTransaction] then
    returns or throws changes nothing.  With the signature the job leaves
    the row of the withdrawal CONFIRMED under it and every entry as it
    is.  Without it the job leaves the row FAILED and gives the amount
    back to the entry, unless [spent - amount] of the entry is NaN: then
    the row stays PENDING and every entry is as it was. *)
Theorem settlement_ignores_confirmation {num : Type} `{JsNumber num} `{Lamports num}
    (pool : bool) (es : list (Sqlite.event num)) (connection : Pool.web3) txId j :
  find (Sqlite.is_job txId) (Sqlite.jobs (Sqlite.run (Sqlite.init pool) es)) = Some j →
  Pool.sendFromPool (Sqlite.poolKeypair (Sqlite.run (Sqlite.init pool) es)) connection
    (Sqlite.job_recipient j) (Sqlite.job_amt j)
  = (if Pool.PublicKey connection (Sqlite.job_recipient j)
     then match Pool.getLatestBlockhash connection with
          | Some blockhash =>
              Pool.sendRawTransaction connection blockhash (Sqlite.job_recipient j)
                (lamports_of (Sqlite.job_amt j))
          | None => None
          end
     else None)
  ∧ ∃ r,
      Sqlite.zk_proofs (Sqlite.run (Sqlite.init pool) es) !! Sqlite.job_zkProofId j
      = Some r
      ∧ ∀ t', t' ∈ Sqlite.transactions
                     (Pool.job_body connection j (Sqlite.run (Sqlite.init pool) es)) →
              Sqlite.tx_id t' = txId →
              match Pool.sendFromPool true connection (Sqlite.job_recipient j)
                      (Sqlite.job_amt j) with
              | Some signature =>
                  Sqlite.tx_status t' = CONFIRMED
                  ∧ Sqlite.tx_signature t' = Some signature
                  ∧ Sqlite.zk_proofs
                      (Pool.job_body connection j (Sqlite.run (Sqlite.init pool) es))
                    = Sqlite.zk_proofs (Sqlite.run (Sqlite.init pool) es)
              | None =>
                  if Sqlite.is_NaN (js_sub (Sqlite.spent r) (Sqlite.job_amt j))
                  then Sqlite.tx_status t' = PENDING
                       ∧ Sqlite.zk_proofs
                           (Pool.job_body connection j
                              (Sqlite.run (Sqlite.init pool) es))
                         = Sqlite.zk_proofs (Sqlite.run (Sqlite.init pool) es)
                  else Sqlite.tx_status t' = FAILED
                       ∧ Sqlite.zk_proofs
                           (Pool.job_body connection j
                              (Sqlite.run (Sqlite.init pool) es))
                         = <[Sqlite.job_zkProofId j :=
                               Sqlite.sub_spent (Sqlite.job_amt j) r]>
                             (Sqlite.zk_proofs (Sqlite.run (Sqlite.init pool) es))
              end.
Proof.
  intros Hf. set (s := Sqlite.run (Sqlite.init pool) es) in *.
  assert (Sqlite.consistent s) as Hc by apply sq_consistent_run, sq_consistent_init.
  pose proof (sq_job_needs_key es pool txId j Hf) as Hkey. fold s in Hkey.
  rewrite Hkey. split; [apply sendFromPool_sent|].
  assert (Sqlite.job_txId j = txId) as Hid.
  { apply find_some in Hf as [_ Hid]. by apply N.eqb_eq in Hid. }
  destruct (sq_job_reservation s txId j Hc Hf)
    as (t & r & Ht & Hjr & Hteq & Huniq & Hr & _).
  destruct Hjr as (_ & Hp & _ & Hamt & Hzkp & _).
  exists r. split; [by rewrite <- Hzkp|].
  unfold Pool.job_body. rewrite Hkey, Hid.
  intros t' Ht' Hid'.
  destruct (Pool.sendFromPool true connection _ _) as [signature|].
  - destruct (sq_settle_success s txId signature j Hc Hf)
      as (t0 & _ & _ & _ & _ & _ & Hall & Hzk).
    destruct (Hall t' Ht' Hid') as (Hst & Hsig & _). done.
  - destruct (sq_settle_failure s txId j Hc Hf)
      as (t0 & r0 & Ht0 & Hid0 & _ & _ & Hr0 & Hok & Hthrown).
    assert (t0 = t) as -> by (by apply Huniq).
    assert (r0 = r) as -> by congruence.
    rewrite Hamt, ?Hzkp in Hok, Hthrown.
    destruct (Sqlite.is_NaN (js_sub (Sqlite.spent r) (Sqlite.job_amt j))) eqn:Hnan.
    + rewrite (Hthrown eq_refl) in Ht' |- *. simpl in *.
      split; [|done]. by rewrite (Huniq t' Ht' Hid').
    + destruct (Hok eq_refl) as (_ & Hall & Hzk).
      destruct (Hall t' Ht' Hid') as (Hst & _). split; [done|].
      by rewrite Hzk, Hzkp.
Qed.

Lemma settlement_ignores_confirmation_witness :
  Pool.sendFromPool (Sqlite.poolKeypair Scenario.sq_pending)
    {| Pool.PublicKey := λ _, true; Pool.getLatestBlockhash := Some "EkSnNWid";
       Pool.sendRawTransaction := λ _ _ _, Some "4sGjMW1s";
       Pool.confirmTransaction := λ _ _, false |}
    Scenario.recipient 0.5%float
  = Some "4sGjMW1s".
Proof.
  assert (find (Sqlite.is_job 2)
            (Sqlite.jobs
               (Sqlite.run (Sqlite.init true)
                  (Scenario.funded ++
                     [ Sqlite.Withdraw (Some Scenario.zkp) (Some Scenario.note)
                         (Some 0.5%float) (Some Scenario.recipient) 3000 ])%list))
          = Some {| Sqlite.job_txId := 2%N; Sqlite.job_amt := 0.5%float;
                    Sqlite.job_zkProofId := Scenario.zkp;
                    Sqlite.job_recipient := Scenario.recipient |}) as Hf
    by (vm_compute; reflexivity).
  pose proof (proj1 (settlement_ignores_confirmation true _
                       {| Pool.PublicKey := λ _, true;
                          Pool.getLatestBlockhash := Some "EkSnNWid";
                          Pool.sendRawTransaction := λ _ _ _, Some "4sGjMW1s";
                          Pool.confirmTransaction := λ _ _, false |} 2%N _ Hf)) as Hsent.
  simpl in Hsent. exact Hsent.
Defined.
